(** * Prompt placeholder expansion: [@{path}] injection

    A shallow embedding of
    - [packages/cli/src/services/prompt-processors/atFileProcessor.ts]
      (the placeholder scanner [extractInjections] and the expander
      [process]), and
    - [packages/core/src/utils/pathReader.ts]
      (the workspace-constrained resolver [readPathFromWorkspace]),
    together with the properties the specification states about them.

    JavaScript strings are sequences of UTF-16 code units; a string is a
    [list N] here, positions are [nat], and the brace counter is a [Z]. *)

From Stdlib Require Import Strings.String Strings.Ascii.
From Stdlib Require Import List Arith ZArith NArith Bool Lia.
Import ListNotations.

Set Implicit Arguments.

(** ** JavaScript string primitives used by the two source files *)

Module JS.

Definition jsstring := list N.

(** An ASCII literal as a JavaScript string (one code unit per character). *)
Definition lit (s : string) : jsstring :=
  map N_of_ascii (list_ascii_of_string s).

Definition LF : N := 10%N.

Fixpoint eqb (a b : jsstring) : bool :=
  match a, b with
  | [], [] => true
  | x :: a', y :: b' => N.eqb x y && eqb a' b'
  | _, _ => false
  end.

(** [startsWith s pat]: [pat] is a prefix of [s]. *)
Fixpoint startsWith (s pat : jsstring) {struct pat} : bool :=
  match pat, s with
  | [], _ => true
  | _ :: _, [] => false
  | p :: pat', c :: s' => N.eqb c p && startsWith s' pat'
  end.

(** [String.prototype.substring(start, end)]: both arguments are clamped to
    the length and swapped when [start] is the larger one. *)
Definition substring (s : jsstring) (start stop : nat) : jsstring :=
  let a := Nat.min start (length s) in
  let b := Nat.min stop (length s) in
  firstn (Nat.max a b - Nat.min a b) (skipn (Nat.min a b) s).

(** [substring(start)] with the end omitted. *)
Definition substringFrom (s : jsstring) (start : nat) : jsstring :=
  substring s start (length s).

(** Search of [pat] in the suffix [rest] of a string, [i] being the position
    of the head of [rest] in that string. *)
Fixpoint indexOfAux (rest pat : jsstring) (i : nat) : option nat :=
  if startsWith rest pat then Some i
  else match rest with
       | [] => None
       | _ :: rest' => indexOfAux rest' pat (S i)
       end.

(** [String.prototype.indexOf(pat, from)]; [None] stands for [-1]. *)
Definition indexOf (s pat : jsstring) (from : nat) : option nat :=
  indexOfAux (skipn from s) pat (Nat.min from (length s)).

(** [String.prototype.includes(pat)]. *)
Definition includes (s pat : jsstring) : bool :=
  match indexOf s pat 0 with
  | Some _ => true
  | None => false
  end.

(** White space and line terminators of ECMAScript, as code units. *)
Definition isWhiteSpace (c : N) : bool :=
  (N.eqb c 9 || N.eqb c 10 || N.eqb c 11 || N.eqb c 12 || N.eqb c 13
   || N.eqb c 32 || N.eqb c 160 || N.eqb c 5760
   || (N.leb 8192 c && N.leb c 8202)
   || N.eqb c 8232 || N.eqb c 8233 || N.eqb c 8239 || N.eqb c 8287
   || N.eqb c 12288 || N.eqb c 65279)%N.

Fixpoint trimStart (s : jsstring) : jsstring :=
  match s with
  | c :: s' => if isWhiteSpace c then trimStart s' else s
  | [] => []
  end.

Definition trimEnd (s : jsstring) : jsstring :=
  rev (trimStart (rev s)).

(** [String.prototype.trim()]. *)
Definition trim (s : jsstring) : jsstring := trimEnd (trimStart s).

(** [Array.prototype.join(sep)] on an array of strings. *)
Fixpoint join (sep : jsstring) (l : list jsstring) : jsstring :=
  match l with
  | [] => []
  | [x] => x
  | x :: l' => x ++ sep ++ join sep l'
  end.

(** [contains s pat]: [pat] occurs in [s] (used for messages). *)
Definition contains (s pat : jsstring) : Prop :=
  exists before after, s = before ++ pat ++ after.

End JS.

Import JS.

(** Results of fallible calls: a rejected promise or a thrown value is
    [Err], a returned or resolved value is [Ok]. *)
Inductive result (E A : Type) : Type :=
| Ok (value : A)
| Err (error : E).
Arguments Ok {E A} value.
Arguments Err {E A} error.

(** ** [pathReader.ts]: the workspace-constrained resolver *)

Module PathReader.

(** The [WorkspaceContext] collaborator, through the two queries the
    resolver makes: the ordered root directories and the containment test. *)
Record WorkspaceContext : Type := {
  getDirectories : list jsstring;
  isPathWithinWorkspace : jsstring -> bool
}.

(** [fs.Stats], through the one query made on it. *)
Record Stats : Type := { isDirectory : bool }.

(** Node's [path] and [fs.promises] modules as the resolver uses them.  A
    rejected promise carries the message of the underlying failure. *)
Record Node : Type := {
  isAbsolute : jsstring -> bool;
  resolve : jsstring -> jsstring -> jsstring;
  access : jsstring -> result jsstring unit;
  stat : jsstring -> result jsstring Stats;
  readdir : jsstring -> result jsstring (list jsstring);
  readFile : jsstring -> result jsstring jsstring
}.

(** The failures of the resolver.  The source throws plain [Error] objects;
    a constructor records which throw site raised it, under the name the
    specification gives to that kind: line 28 ([OutOfBoundsError]), line 49
    ([NotFoundError]), and a rejection of [fs.stat], [fs.readdir] or
    [fs.readFile] passed on unchanged ([IOFailure]). *)
Inductive Error : Type :=
| OutOfBoundsError (pathStr : jsstring)
| NotFoundError (pathStr : jsstring)
| IOFailure (cause : jsstring).

(** [error.message]. *)
Definition message (e : Error) : jsstring :=
  match e with
  | OutOfBoundsError pathStr =>
      lit "Absolute path is outside of the allowed workspace: " ++ pathStr
  | NotFoundError pathStr => lit "Path not found in workspace: " ++ pathStr
  | IOFailure cause => cause
  end.

Section Resolver.

Variable node : Node.

(** Lines 36-45: the prioritized search; the value of [absolutePath] when
    the loop is left ([None] is [null]). *)
Fixpoint searchDirs (pathStr : jsstring) (dirs : list jsstring)
  : option jsstring :=
  match dirs with
  | [] => None
  | dir :: dirs' =>
      let potentialPath := resolve node dir pathStr in
      match access node potentialPath with
      | Ok _ => Some potentialPath
      | Err _ => searchDirs pathStr dirs'
      end
  end.

(** Lines 24-46: the value of [absolutePath] before the test of line 48. *)
Definition findAbsolutePath (pathStr : jsstring) (workspace : WorkspaceContext)
  : result Error (option jsstring) :=
  if isAbsolute node pathStr then
    if negb (isPathWithinWorkspace workspace pathStr) then
      Err (OutOfBoundsError pathStr)
    else Ok (Some pathStr)
  else Ok (searchDirs pathStr (getDirectories workspace)).

(** Lines 52-58: stat the target, list a directory or read a file. *)
Definition readTarget (pathStr absolutePath : jsstring)
  : result Error jsstring :=
  match stat node absolutePath with
  | Err cause => Err (IOFailure cause)
  | Ok stats =>
      if isDirectory stats then
        match readdir node absolutePath with
        | Err cause => Err (IOFailure cause)
        | Ok entries =>
            Ok (lit "Directory listing for " ++ pathStr ++ lit ":" ++ [LF]
                ++ lit "- " ++ join ([LF] ++ lit "- ") entries)
        end
      else
        match readFile node absolutePath with
        | Err cause => Err (IOFailure cause)
        | Ok content => Ok content
        end
  end.

(** [readPathFromWorkspace].  The test [!absolutePath] of line 48 holds of
    [null] and of the empty string. *)
Definition readPathFromWorkspace (pathStr : jsstring)
    (workspace : WorkspaceContext) : result Error jsstring :=
  match findAbsolutePath pathStr workspace with
  | Err e => Err e
  | Ok None => Err (NotFoundError pathStr)
  | Ok (Some []) => Err (NotFoundError pathStr)
  | Ok (Some (c :: p)) => readTarget pathStr (c :: p)
  end.

End Resolver.

End PathReader.

(** ** [atFileProcessor.ts]: the scanner and the expander *)

Module AtFileProcessor.

(** Modelled from the spec: the constant [AT_FILE_INJECTION_TRIGGER] is
    imported from [./types.js], which is not part of the sources at hand;
    the specification gives it as the literal two-character sequence. *)
Definition AT_FILE_INJECTION_TRIGGER : jsstring := lit "@{".

Definition openBrace : N := 123%N.
Definition closeBrace : N := 125%N.

Record FileInjection : Type := {
  path : jsstring;
  startIndex : nat;
  endIndex : nat
}.

(** Lines 111-137, the inner loop: [rest] is the text from [currentIndex]
    on.  [Some i] when the loop is left by [break] with the closing brace at
    [i]; [None] when it runs to the end of the text ([foundEnd] false). *)
Fixpoint findEnd (rest : jsstring) (currentIndex : nat) (braceCount : Z)
  : option nat :=
  match rest with
  | [] => None
  | char :: rest' =>
      if N.eqb char openBrace then
        findEnd rest' (S currentIndex) (braceCount + 1)%Z
      else if N.eqb char closeBrace then
        let braceCount := (braceCount - 1)%Z in
        if Z.eqb braceCount 0 then Some currentIndex
        else findEnd rest' (S currentIndex) braceCount
      else findEnd rest' (S currentIndex) braceCount
  end.

(** Lines 100-144, the outer loop, bounded by [fuel] iterations; [None]
    only when the fuel runs out. *)
Fixpoint extractLoop (fuel : nat) (prompt : jsstring) (index : nat)
    (injections : list FileInjection) : option (list FileInjection) :=
  match fuel with
  | O => None
  | S fuel' =>
      if index <? length prompt then
        match indexOf prompt AT_FILE_INJECTION_TRIGGER index with
        | None => Some injections
        | Some startIndex =>
            let currentIndex :=
              startIndex + length AT_FILE_INJECTION_TRIGGER in
            match findEnd (skipn currentIndex prompt) currentIndex 1 with
            | Some currentIndex =>
                let pathContent :=
                  substring prompt
                    (startIndex + length AT_FILE_INJECTION_TRIGGER)
                    currentIndex in
                let endIndex := currentIndex + 1 in
                extractLoop fuel' prompt endIndex
                  (injections ++
                   [{| path := trim pathContent;
                       startIndex := startIndex;
                       endIndex := endIndex |}])
            | None => extractLoop fuel' prompt (startIndex + 1) injections
            end
        end
      else Some injections
  end.

(** The scan from position [index]: every iteration moves [index] forward,
    so [length prompt - index] iterations and one last test are enough
    (lemma [extractLoop_fuel] below). *)
Definition extractFrom (prompt : jsstring) (index : nat)
    (injections : list FileInjection) : list FileInjection :=
  match extractLoop (S (length prompt - index)) prompt index injections with
  | Some result => result
  | None => injections
  end.

(** [extractInjections]. *)
Definition extractInjections (prompt : jsstring) : list FileInjection :=
  extractFrom prompt 0 [].

(** A value caught by the [catch] clause of [process]: an [Error] object
    with its message, or any other value with its [String(...)] form. *)
Inductive thrown : Type :=
| ErrorObject (message : jsstring)
| NonError (asString : jsstring).

(** Line 56: [error instanceof Error ? error.message : String(error)]. *)
Definition messageOf (error : thrown) : jsstring :=
  match error with
  | ErrorObject message => message
  | NonError asString => asString
  end.

(** Modelled from the spec: [MessageType] comes from [../../ui/types.js],
    not part of the sources at hand; the notification sink takes events of
    kind [ERROR] with a text. *)
Inductive MessageType : Type := INFO | ERROR.

Record HistoryItem : Type := { type : MessageType; text : jsstring }.

(** What one call of [process] does to its collaborators, in order: calls
    of the resolver, lines written with [console.error], and items handed
    to [context.ui.addItem] (whose second argument, the clock reading
    [Date.now()], is not recorded). *)
Inductive Event : Type :=
| ReadPath (pathStr : jsstring)
| ConsoleError (line : jsstring)
| AddItem (item : HistoryItem).

Section Expander.

(** The workspace is opaque to the processor, and the resolver is an
    import: [readPath pathStr workspace world] is its outcome in the state
    [world] of whatever it reads from, with the state it leaves. *)
Variables W World : Type.
Variable readPath : jsstring -> W -> World -> result thrown jsstring * World.

Record Config : Type := { getWorkspaceContext : W }.

(** [CommandContext], through [context.services.config] ([None] when the
    service is missing); [context.ui] is the sink of [AddItem] events. *)
Record CommandContext : Type := { config : option Config }.

Record LoopState : Type := {
  processedPrompt : jsstring;
  lastIndex : nat;
  events : list Event;
  world : World
}.

(** Line 57. *)
Definition formatUiMessage (injectionPath message : jsstring) : jsstring :=
  lit "Failed to inject file content for '@{" ++ injectionPath ++ lit "}': "
  ++ message.

(** Lines 60-62. *)
Definition consoleLine (uiMessage : jsstring) : jsstring :=
  lit "[AtFileProcessor] " ++ uiMessage
  ++ lit ". Leaving placeholder in prompt.".

(** Lines 45-80: one iteration of the loop over the injections. *)
Definition loopBody (prompt : jsstring) (cfg : Config) (st : LoopState)
    (injection : FileInjection) : LoopState :=
  let processedPrompt :=
    processedPrompt st
    ++ substring prompt (lastIndex st) (startIndex injection) in
  let workspace := getWorkspaceContext cfg in
  match readPath (path injection) workspace (world st) with
  | (Ok fileContent, world') =>
      {| processedPrompt := processedPrompt ++ fileContent;
         lastIndex := endIndex injection;
         events := events st ++ [ReadPath (path injection)];
         world := world' |}
  | (Err error, world') =>
      let message := messageOf error in
      let uiMessage := formatUiMessage (path injection) message in
      {| processedPrompt :=
           processedPrompt
           ++ substring prompt (startIndex injection) (endIndex injection);
         lastIndex := endIndex injection;
         events :=
           events st
           ++ [ReadPath (path injection);
               ConsoleError (consoleLine uiMessage);
               AddItem {| type := ERROR; text := uiMessage |}];
         world := world' |}
  end.

Record Outcome : Type := {
  output : jsstring;
  trace : list Event;
  finalWorld : World
}.

(** [process]: the returned string, with the events of the call. *)
Definition process (prompt : jsstring) (context : CommandContext)
    (world0 : World) : Outcome :=
  let unchanged :=
    {| output := prompt; trace := []; finalWorld := world0 |} in
  if negb (includes prompt AT_FILE_INJECTION_TRIGGER) then unchanged
  else
    match config context with
    | None => unchanged
    | Some cfg =>
        let injections := extractInjections prompt in
        if length injections =? 0 then unchanged
        else
          let st :=
            fold_left (loopBody prompt cfg) injections
              {| processedPrompt := []; lastIndex := 0;
                 events := []; world := world0 |} in
          {| output := processedPrompt st
                       ++ substringFrom prompt (lastIndex st);
             trace := events st;
             finalWorld := world st |}
    end.

End Expander.

End AtFileProcessor.

Import PathReader AtFileProcessor.

(** ** Notions the properties are stated with *)

Module Spec.

(** The span the scanner records for a trigger at [startIndex] closed by
    the brace at [currentIndex] (lines 119-129). *)
Definition spanOf (prompt : jsstring) (startIndex currentIndex : nat)
  : FileInjection :=
  {| path := trim (substring prompt
                     (startIndex + length AT_FILE_INJECTION_TRIGGER)
                     currentIndex);
     startIndex := startIndex;
     endIndex := currentIndex + 1 |}.

(** A span moved [n] positions to the right. *)
Definition shift (n : nat) (inj : FileInjection) : FileInjection :=
  {| path := path inj;
     startIndex := n + startIndex inj;
     endIndex := n + endIndex inj |}.

(** [balancedFrom depth s]: read after [depth] unmatched opening braces,
    [s] never closes more braces than are open and ends with none open. *)
Fixpoint balancedFrom (depth : nat) (s : jsstring) : bool :=
  match s with
  | [] => depth =? 0
  | c :: s' =>
      if N.eqb c openBrace then balancedFrom (S depth) s'
      else if N.eqb c closeBrace then
        match depth with
        | O => false
        | S depth' => balancedFrom depth' s'
        end
      else balancedFrom depth s'
  end.

(** Balanced braces. *)
Definition balanced (s : jsstring) : bool := balancedFrom 0 s.

(** [staysOpen depth s]: read after a trigger and [depth] further unmatched
    opening braces, [s] runs to its end without closing the trigger. *)
Fixpoint staysOpen (depth : nat) (s : jsstring) : bool :=
  match s with
  | [] => true
  | c :: s' =>
      if N.eqb c openBrace then staysOpen (S depth) s'
      else if N.eqb c closeBrace then
        match depth with
        | O => false
        | S depth' => staysOpen depth' s'
        end
      else staysOpen depth s'
  end.

(** Spans in left-to-right order without overlap, none empty, all after
    [last] and within a text of length [len]. *)
Fixpoint ordered (last len : nat) (spans : list FileInjection) : Prop :=
  match spans with
  | [] => last <= len
  | inj :: spans' =>
      last <= startIndex inj /\ startIndex inj < endIndex inj
      /\ ordered (endIndex inj) len spans'
  end.

(** The verbatim slice of the text a span covers. *)
Definition slice (prompt : jsstring) (inj : FileInjection) : jsstring :=
  substring prompt (startIndex inj) (endIndex inj).

(** A span that covers exactly one closed injection of the text: the
    trigger, an inner text with balanced braces, and the closing brace; its
    path is the inner text, trimmed. *)
Definition wellFormedAt (prompt : jsstring) (inj : FileInjection) : Prop :=
  exists before inner after,
    prompt = before ++ AT_FILE_INJECTION_TRIGGER ++ inner ++ closeBrace :: after
    /\ balanced inner = true
    /\ startIndex inj = length before
    /\ endIndex inj = length before + length inner + 3
    /\ path inj = trim inner.

(** The text from [last] on, with each span replaced by the string paired
    with it and everything between the spans kept. *)
Fixpoint render (prompt : jsstring) (last : nat)
    (parts : list (FileInjection * jsstring)) : jsstring :=
  match parts with
  | [] => substringFrom prompt last
  | (inj, replacement) :: parts' =>
      substring prompt last (startIndex inj) ++ replacement
      ++ render prompt (endIndex inj) parts'
  end.

(** The same rendering, stopped at position [stop] after the last span. *)
Fixpoint renderUntil (prompt : jsstring) (last : nat)
    (parts : list (FileInjection * jsstring)) (stop : nat) : jsstring :=
  match parts with
  | [] => substring prompt last stop
  | (inj, replacement) :: parts' =>
      substring prompt last (startIndex inj) ++ replacement
      ++ renderUntil prompt (endIndex inj) parts' stop
  end.

(** What takes the place of a span: the resolved content, or on failure the
    span's own text. *)
Definition replacement (prompt : jsstring) (inj : FileInjection)
    (o : result thrown jsstring) : jsstring :=
  match o with
  | Ok content => content
  | Err _ => slice prompt inj
  end.

(** The spans with what takes their place, given their outcomes. *)
Definition replaced (prompt : jsstring)
    (l : list (FileInjection * result thrown jsstring))
  : list (FileInjection * jsstring) :=
  map (fun p => (fst p, replacement prompt (fst p) (snd p))) l.

(** The spans, each with its own text. *)
Definition verbatim (prompt : jsstring) (spans : list FileInjection)
  : list (FileInjection * jsstring) :=
  map (fun inj => (inj, slice prompt inj)) spans.

(** The notification for a failed span. *)
Definition failureItem (inj : FileInjection) (error : thrown) : HistoryItem :=
  {| type := ERROR;
     text := lit "Failed to inject file content for '@{" ++ path inj
             ++ lit "}': " ++ messageOf error |}.

(** The notifications owed to spans with their outcomes: one per failure. *)
Fixpoint failureItems (l : list (FileInjection * result thrown jsstring))
  : list HistoryItem :=
  match l with
  | [] => []
  | (inj, Ok _) :: l' => failureItems l'
  | (inj, Err error) :: l' => failureItem inj error :: failureItems l'
  end.

(** The events owed to one span with its outcome: the call of the resolver
    and, on failure, the diagnostic line and the notification. *)
Definition eventsOf (p : FileInjection * result thrown jsstring)
  : list Event :=
  match snd p with
  | Ok _ => [ReadPath (path (fst p))]
  | Err error =>
      [ReadPath (path (fst p));
       ConsoleError (consoleLine (text (failureItem (fst p) error)));
       AddItem (failureItem (fst p) error)]
  end.

(** The number of failed outcomes. *)
Fixpoint failures (l : list (FileInjection * result thrown jsstring)) : nat :=
  match l with
  | [] => 0
  | (_, Ok _) :: l' => failures l'
  | (_, Err _) :: l' => S (failures l')
  end.

(** The items handed to the notification sink, read off a trace. *)
Fixpoint notifications (trace : list Event) : list HistoryItem :=
  match trace with
  | [] => []
  | AddItem item :: trace' => item :: notifications trace'
  | _ :: trace' => notifications trace'
  end.

(** The resolver calls, read off a trace. *)
Fixpoint resolverCalls (trace : list Event) : list jsstring :=
  match trace with
  | [] => []
  | ReadPath pathStr :: trace' => pathStr :: resolverCalls trace'
  | _ :: trace' => resolverCalls trace'
  end.

Section Outcomes.

Variables W World : Type.
Variable readPath : jsstring -> W -> World -> result thrown jsstring * World.

(** The outcomes of resolving the spans one after the other, each paired
    with its span, and the state the resolver is left in. *)
Fixpoint resolveAll (workspace : W) (spans : list FileInjection)
    (world0 : World)
  : list (FileInjection * result thrown jsstring) * World :=
  match spans with
  | [] => ([], world0)
  | inj :: spans' =>
      let (o, world1) := readPath (path inj) workspace world0 in
      let (rest, world2) := resolveAll workspace spans' world1 in
      ((inj, o) :: rest, world2)
  end.

End Outcomes.

(** The outcome of [readPathFromWorkspace] as the [catch] clause of
    [process] sees it. *)
Definition outcomeIn (node : Node) (workspace : WorkspaceContext)
    (pathStr : jsstring) : result thrown jsstring :=
  match readPathFromWorkspace node pathStr workspace with
  | Ok content => Ok content
  | Err e => Err (ErrorObject (message e))
  end.

(** The resolver of [pathReader.ts] as [process] imports it: it reads a
    file system it does not change, and what it throws are [Error]s. *)
Definition readPathIn (node : Node) (pathStr : jsstring)
    (workspace : WorkspaceContext) (world0 : unit)
  : result thrown jsstring * unit :=
  (outcomeIn node workspace pathStr, world0).

(** The listing of a directory along the specification's words: the
    header, then one [- entry] line per immediate child. *)
Definition listingPerChild (pathStr : jsstring) (entries : list jsstring)
  : jsstring :=
  lit "Directory listing for " ++ pathStr ++ lit ":"
  ++ concat (map (fun entry => [LF] ++ lit "- " ++ entry) entries).

(** The existence check of the relative search fails at a candidate. *)
Definition accessFails (node : Node) (candidate : jsstring) : Prop :=
  exists cause, access node candidate = Err cause.

End Spec.

Import Spec.

(** ** Test worlds: an in-memory file system and stand-in resolvers, after
    the fixtures of the two test suites *)

Module Fixtures.

Inductive entry : Type :=
| File (content : jsstring)
| Directory (children : list jsstring).

Fixpoint lookup (tree : list (jsstring * entry)) (p : jsstring)
  : option entry :=
  match tree with
  | [] => None
  | (q, e) :: tree' => if JS.eqb p q then Some e else lookup tree' p
  end.

(** POSIX [path.isAbsolute]: the path starts with a slash. *)
Definition posixIsAbsolute (p : jsstring) : bool :=
  match p with
  | c :: _ => N.eqb c 47
  | [] => false
  end.

(** POSIX [path.resolve(dir, p)] for an absolute normalized [dir] and a
    relative [p] without [.] or [..] segments. *)
Definition posixResolve (dir p : jsstring) : jsstring := dir ++ lit "/" ++ p.

Definition enoent (syscall p : jsstring) : jsstring :=
  lit "ENOENT: no such file or directory, " ++ syscall ++ lit " '" ++ p
  ++ lit "'".

(** A file system holding exactly the files and directories of [tree]. *)
Definition mockFs (tree : list (jsstring * entry)) : Node :=
  {| isAbsolute := posixIsAbsolute;
     resolve := posixResolve;
     access := fun p =>
       match lookup tree p with
       | Some _ => Ok tt
       | None => Err (enoent (lit "access") p)
       end;
     stat := fun p =>
       match lookup tree p with
       | Some (File _) => Ok {| isDirectory := false |}
       | Some (Directory _) => Ok {| isDirectory := true |}
       | None => Err (enoent (lit "stat") p)
       end;
     readdir := fun p =>
       match lookup tree p with
       | Some (Directory children) => Ok children
       | Some (File _) =>
           Err (lit "ENOTDIR: not a directory, scandir '" ++ p ++ lit "'")
       | None => Err (enoent (lit "scandir") p)
       end;
     readFile := fun p =>
       match lookup tree p with
       | Some (File content) => Ok content
       | Some (Directory _) =>
           Err (lit "EISDIR: illegal operation on a directory, read")
       | None => Err (enoent (lit "open") p)
       end |}.

(** A workspace over [dirs]: a path is within it when it is one of the
    roots or lies below one. *)
Definition workspaceOf (dirs : list jsstring) : WorkspaceContext :=
  {| getDirectories := dirs;
     isPathWithinWorkspace := fun p =>
       existsb (fun d => JS.eqb p d || startsWith p (d ++ lit "/")) dirs |}.

Definition CWD : jsstring := lit "/test/cwd".
Definition OTHER_DIR : jsstring := lit "/test/other".
Definition OUTSIDE_DIR : jsstring := lit "/test/outside".

(** The same file under both roots, an empty directory and a directory
    with two children under the first root, a file outside the roots. *)
Definition tree : list (jsstring * entry) :=
  [ (lit "/test/cwd", Directory [lit "file.txt"; lit "empty"; lit "subdir"]);
    (lit "/test/cwd/file.txt", File (lit "hello from cwd"));
    (lit "/test/cwd/empty", Directory []);
    (lit "/test/cwd/subdir", Directory [lit "file1.txt"; lit "file2.txt"]);
    (lit "/test/cwd/subdir/file1.txt", File []);
    (lit "/test/cwd/subdir/file2.txt", File []);
    (lit "/test/other", Directory [lit "file.txt"; lit "only.txt"]);
    (lit "/test/other/file.txt", File (lit "hello from other dir"));
    (lit "/test/other/only.txt", File (lit "only in other"));
    (lit "/test/outside", Directory [lit "secret.txt"]);
    (lit "/test/outside/secret.txt", File (lit "secrets")) ].

Definition node : Node := mockFs tree.
Definition workspace : WorkspaceContext := workspaceOf [CWD; OTHER_DIR].

(** The stand-in resolver of the processor's tests: [content of <path>],
    except for the paths listed with the message of the error to throw. *)
Definition mockReadPath (failing : list (jsstring * jsstring))
    (pathStr : jsstring) (workspace : unit) (world0 : unit)
  : result thrown jsstring * unit :=
  let fix find (l : list (jsstring * jsstring)) : option jsstring :=
    match l with
    | [] => None
    | (q, m) :: l' => if JS.eqb pathStr q then Some m else find l'
    end in
  match find failing with
  | Some m => (Err (ErrorObject m), world0)
  | None => (Ok (lit "content of " ++ pathStr), world0)
  end.

(** A resolver that plays back a prepared list of outcomes, one per call,
    whatever the path. *)
Definition scripted (pathStr : jsstring) (workspace : unit)
    (script : list (result thrown jsstring))
  : result thrown jsstring * list (result thrown jsstring) :=
  match script with
  | o :: script' => (o, script')
  | [] => (Err (NonError (lit "undefined")), [])
  end.

Definition withConfig (W : Type) (workspace : W) : CommandContext W :=
  {| config := Some {| getWorkspaceContext := workspace |} |}.

Definition withoutConfig (W : Type) : CommandContext W :=
  {| config := None |}.

End Fixtures.

(** ** Further notions, for the properties beyond the specification's *)

Module Derived.

(** No closing brace anywhere in the text. *)
Definition noCloseBrace (s : jsstring) : bool :=
  forallb (fun c => negb (N.eqb c closeBrace)) s.

(** A string that neither starts nor ends with white space. *)
Definition trimmed (s : jsstring) : Prop :=
  match s with
  | [] => True
  | c :: _ => isWhiteSpace c = false
  end
  /\ match rev s with
     | [] => True
     | c :: _ => isWhiteSpace c = false
     end.

(** The lines written with [console.error], read off a trace. *)
Fixpoint consoleLines (trace : list Event) : list jsstring :=
  match trace with
  | [] => []
  | ConsoleError line :: trace' => line :: consoleLines trace'
  | _ :: trace' => consoleLines trace'
  end.

(** A span whose resolution failed. *)
Definition failed (p : FileInjection * result thrown jsstring) : Prop :=
  exists error, snd p = Err error.

(** What [process] puts in place of a span when the resolver is
    [readPathFromWorkspace] over the file system [node]. *)
Definition replacementIn (node : Node) (workspace : WorkspaceContext)
    (prompt : jsstring) (inj : FileInjection) : jsstring :=
  match readPathFromWorkspace node (path inj) workspace with
  | Ok content => content
  | Err _ => slice prompt inj
  end.

(** The notifications [process] sends for spans when the resolver is
    [readPathFromWorkspace] over the file system [node]. *)
Fixpoint notificationsIn (node : Node) (workspace : WorkspaceContext)
    (spans : list FileInjection) : list HistoryItem :=
  match spans with
  | [] => []
  | inj :: spans' =>
      match readPathFromWorkspace node (path inj) workspace with
      | Ok _ => notificationsIn node workspace spans'
      | Err e =>
          {| type := ERROR;
             text := formatUiMessage (path inj) (message e) |}
          :: notificationsIn node workspace spans'
      end
  end.

(** Where a successful read may come from: the absolute path itself when
    the workspace contains it, or the candidate of a configured root that
    passed the existence check. *)
Definition permittedTarget (node : Node) (workspace : WorkspaceContext)
    (pathStr target : jsstring) : Prop :=
  (isAbsolute node pathStr = true
   /\ isPathWithinWorkspace workspace pathStr = true
   /\ target = pathStr)
  \/ (isAbsolute node pathStr = false
      /\ exists dir,
           In dir (getDirectories workspace)
           /\ target = resolve node dir pathStr
           /\ access node target = Ok tt).

(** A workspace over [dirs] whose containment test rejects every path. *)
Definition rejecting (dirs : list jsstring) : WorkspaceContext :=
  {| getDirectories := dirs; isPathWithinWorkspace := fun _ => false |}.

End Derived.

Import Derived.

(** * Properties *)

(** ** Facts about the string primitives *)

Module JSFacts.

Lemma substring_ordered (s : jsstring) (a b : nat) :
  a <= b -> b <= length s ->
  substring s a b = firstn (b - a) (skipn a s).
Proof.
  intros Hab Hb. unfold substring.
  rewrite (Nat.min_l a), (Nat.min_l b) by lia.
  rewrite Nat.max_r, Nat.min_l by lia. reflexivity.
Qed.

Lemma substringFrom_skipn (s : jsstring) (a : nat) :
  a <= length s -> substringFrom s a = skipn a s.
Proof.
  intros Ha. unfold substringFrom.
  rewrite substring_ordered by lia.
  apply firstn_all2. rewrite length_skipn. lia.
Qed.

Lemma startsWith_app (pat rest : jsstring) :
  startsWith (pat ++ rest) pat = true.
Proof.
  induction pat as [|p pat IH]; simpl; [reflexivity|].
  rewrite N.eqb_refl. exact IH.
Qed.

Lemma startsWith_inv (s pat : jsstring) :
  startsWith s pat = true -> exists rest, s = pat ++ rest.
Proof.
  revert s. induction pat as [|p pat IH]; intros s H.
  - exists s. reflexivity.
  - destruct s as [|c s]; simpl in H; [discriminate|].
    apply andb_prop in H. destruct H as [Hc Hs].
    apply N.eqb_eq in Hc. subst c.
    destruct (IH _ Hs) as [rest ->]. exists rest. reflexivity.
Qed.

Lemma startsWith_length (s pat : jsstring) :
  startsWith s pat = true -> length pat <= length s.
Proof.
  intros H. destruct (startsWith_inv _ _ H) as [rest ->].
  rewrite length_app. lia.
Qed.

(** A hit of [indexOfAux] lies in the searched suffix, the pattern starts
    there, and it starts nowhere before. *)
Lemma indexOfAux_Some (rest pat : jsstring) (i k : nat) :
  indexOfAux rest pat i = Some k ->
  i <= k /\ k + length pat <= i + length rest
  /\ startsWith (skipn (k - i) rest) pat = true
  /\ forall j, j < k - i -> startsWith (skipn j rest) pat = false.
Proof.
  revert i. induction rest as [|c rest IH]; intros i H; simpl in H.
  - destruct (startsWith [] pat) eqn:E; [|discriminate].
    injection H as <-. rewrite Nat.sub_diag. simpl.
    apply startsWith_length in E as L. simpl in L.
    repeat split; try lia; exact E.
  - destruct (startsWith (c :: rest) pat) eqn:E.
    + injection H as <-. rewrite Nat.sub_diag. cbn [skipn length].
      apply startsWith_length in E as L. simpl in L.
      repeat split; try lia; exact E.
    + apply IH in H. destruct H as (H1 & H2 & H3 & H4).
      replace (k - i) with (S (k - S i)) by lia. cbn [skipn length].
      repeat split; try lia; [exact H3|].
      intros [|j] Hj; simpl; [exact E | apply H4; lia].
Qed.

Lemma indexOfAux_None (rest pat : jsstring) (i : nat) :
  indexOfAux rest pat i = None ->
  forall j, startsWith (skipn j rest) pat = false.
Proof.
  revert i. induction rest as [|c rest IH]; intros i H j; simpl in H.
  - destruct (startsWith [] pat) eqn:E; [discriminate|].
    destruct j; exact E.
  - destruct (startsWith (c :: rest) pat) eqn:E; [discriminate|].
    destruct j as [|j]; simpl; [exact E | exact (IH _ H j)].
Qed.

(** The position found does not depend on where the count starts. *)
Lemma indexOfAux_shift (rest pat : jsstring) (i : nat) :
  indexOfAux rest pat i = option_map (fun k => k + i) (indexOfAux rest pat 0).
Proof.
  revert i. induction rest as [|c rest IH]; intros i; simpl.
  - destruct (startsWith [] pat); reflexivity.
  - destruct (startsWith (c :: rest) pat); [reflexivity|].
    rewrite (IH (S i)), (IH 1).
    destruct (indexOfAux rest pat 0); simpl; [f_equal; lia | reflexivity].
Qed.

Lemma indexOf_Some (s pat : jsstring) (from k : nat) :
  from <= length s -> indexOf s pat from = Some k ->
  from <= k /\ k + length pat <= length s
  /\ startsWith (skipn k s) pat = true.
Proof.
  intros Hf H. unfold indexOf in H. rewrite Nat.min_l in H by lia.
  apply indexOfAux_Some in H. destruct H as (H1 & H2 & H3 & _).
  rewrite length_skipn in H2. rewrite skipn_skipn in H3.
  replace (k - from + from) with k in H3 by lia.
  repeat split; try lia; exact H3.
Qed.

(** [indexOf] from [from] is [indexOf] from [0] in the text cut at [from]. *)
Lemma indexOf_skipn (s pat : jsstring) (from : nat) :
  from <= length s ->
  indexOf s pat from
  = option_map (fun k => k + from) (indexOf (skipn from s) pat 0).
Proof.
  intros Hf. unfold indexOf. simpl skipn. rewrite (Nat.min_l from) by lia.
  rewrite Nat.min_0_l. apply indexOfAux_shift.
Qed.

Lemma skipn_app_shift (pre s : jsstring) (j : nat) :
  skipn (length pre + j) (pre ++ s) = skipn j s.
Proof.
  rewrite skipn_app, skipn_all2 by lia.
  replace (length pre + j - length pre) with j by lia. reflexivity.
Qed.

Lemma substring_app_shift (pre s : jsstring) (a b : nat) :
  substring (pre ++ s) (length pre + a) (length pre + b) = substring s a b.
Proof.
  unfold substring. rewrite length_app.
  rewrite !Nat.add_min_distr_l, Nat.add_max_distr_l.
  rewrite skipn_app_shift. f_equal. lia.
Qed.

Lemma indexOf_app_shift (pre s pat : jsstring) (j : nat) :
  indexOf (pre ++ s) pat (length pre + j)
  = option_map (fun k => length pre + k) (indexOf s pat j).
Proof.
  unfold indexOf. rewrite skipn_app_shift, length_app, Nat.add_min_distr_l.
  rewrite (indexOfAux_shift _ _ (length pre + _)).
  rewrite (indexOfAux_shift _ _ (Nat.min j _)).
  destruct (indexOfAux (skipn j s) pat 0); simpl; [f_equal; lia|reflexivity].
Qed.

Lemma substring_middle (a b c : jsstring) :
  substring (a ++ b ++ c) (length a) (length a + length b) = b.
Proof.
  rewrite <- (Nat.add_0_r (length a)) at 1. rewrite substring_app_shift.
  rewrite substring_ordered by (rewrite ?length_app; lia).
  cbn [skipn]. rewrite Nat.sub_0_r, firstn_app, firstn_all, Nat.sub_diag.
  cbn [firstn]. apply app_nil_r.
Qed.

Lemma substring_skipn_split (s : jsstring) (a b : nat) :
  a <= b -> b <= length s -> substring s a b ++ skipn b s = skipn a s.
Proof.
  intros Hab Hb. rewrite substring_ordered by lia.
  replace b with ((b - a) + a) at 2 by lia.
  rewrite <- skipn_skipn. apply firstn_skipn.
Qed.

Lemma substringFrom_0 (s : jsstring) : substringFrom s 0 = s.
Proof. rewrite substringFrom_skipn by lia. reflexivity. Qed.

(** [trimStart] drops white space from the front, and only that. *)
Lemma trimStart_spec (s : jsstring) :
  exists l,
    s = l ++ trimStart s
    /\ Forall (fun c => isWhiteSpace c = true) l
    /\ match trimStart s with
       | [] => True
       | c :: _ => isWhiteSpace c = false
       end.
Proof.
  induction s as [|c s IH].
  - exists []. repeat split. constructor.
  - cbn [trimStart]. destruct (isWhiteSpace c) eqn:E.
    + destruct IH as (l & Hl & Hws & Hhead).
      exists (c :: l). repeat split.
      * cbn [app]. f_equal. exact Hl.
      * constructor; assumption.
      * exact Hhead.
    + exists []. repeat split; [constructor | exact E].
Qed.

(** [trim] returns the text between the leading and the trailing white
    space: what it drops is white space, what it keeps neither starts nor
    ends with white space. *)
Lemma trim_spec (s : jsstring) :
  exists l r,
    s = l ++ trim s ++ r
    /\ Forall (fun c => isWhiteSpace c = true) l
    /\ Forall (fun c => isWhiteSpace c = true) r
    /\ match trim s with
       | [] => True
       | c :: _ => isWhiteSpace c = false
       end
    /\ match rev (trim s) with
       | [] => True
       | c :: _ => isWhiteSpace c = false
       end.
Proof.
  destruct (trimStart_spec s) as (l & Hl & Hlws & Hhead).
  destruct (trimStart_spec (rev (trimStart s))) as (r & Hr & Hrws & Hlast).
  assert (Hu : trimStart s = trim s ++ rev r).
  { unfold trim, trimEnd. rewrite <- rev_app_distr, <- Hr.
    symmetry. apply rev_involutive. }
  exists l, (rev r). repeat split.
  - rewrite <- Hu. exact Hl.
  - exact Hlws.
  - apply Forall_rev. exact Hrws.
  - rewrite Hu in Hhead. destruct (trim s); [exact I | exact Hhead].
  - unfold trim, trimEnd. rewrite rev_involutive. exact Hlast.
Qed.

Lemma indexOfAux_first (pat : jsstring) (k : nat) :
  forall (s : jsstring) (i : nat),
    (forall j, j < k -> startsWith (skipn j s) pat = false) ->
    startsWith (skipn k s) pat = true ->
    indexOfAux s pat i = Some (i + k).
Proof.
  induction k as [|k IH]; intros s i Hbefore Hat.
  - simpl in Hat. destruct s; simpl; rewrite Hat; f_equal; lia.
  - pose proof (Hbefore 0 ltac:(lia)) as H0. simpl in H0.
    destruct s as [|c s].
    + simpl in Hat. congruence.
    + simpl. simpl in H0. rewrite H0.
      rewrite IH; [f_equal; lia | | exact Hat].
      intros j Hj. apply (Hbefore (S j)). lia.
Qed.

Lemma includes_false (s pat : jsstring) :
  includes s pat = false ->
  forall j, startsWith (skipn j s) pat = false.
Proof.
  unfold includes, indexOf. intros H j.
  destruct (indexOfAux (skipn 0 s) pat _) eqn:E; [discriminate|].
  exact (indexOfAux_None _ _ _ E j).
Qed.

End JSFacts.

(** ** The scanner: termination and the equation of its loop *)

Module ScannerFacts.

Import JSFacts.

Lemma trigger_length : length AT_FILE_INJECTION_TRIGGER = 2.
Proof. reflexivity. Qed.

Lemma findEnd_bounds (rest : jsstring) (i : nat) (d : Z) (c : nat) :
  findEnd rest i d = Some c -> i <= c < i + length rest.
Proof.
  revert i d. induction rest as [|ch rest IH]; intros i d H; simpl in H.
  - discriminate.
  - cbn [length].
    destruct (N.eqb ch openBrace).
    + apply IH in H. lia.
    + destruct (N.eqb ch closeBrace).
      * destruct (Z.eqb (d - 1) 0).
        -- injection H as <-. lia.
        -- apply IH in H. lia.
      * apply IH in H. lia.
Qed.

Lemma findEnd_shift (rest : jsstring) (i : nat) (d : Z) :
  findEnd rest i d = option_map (fun c => c + i) (findEnd rest 0 d).
Proof.
  revert i d. induction rest as [|ch rest IH]; intros i d; simpl.
  - reflexivity.
  - assert (Hs : forall d',
      findEnd rest (S i) d'
      = option_map (fun c => c + i) (findEnd rest 1 d')).
    { intros d'. rewrite (IH (S i)), (IH 1).
      destruct (findEnd rest 0 d'); simpl; [f_equal; lia | reflexivity]. }
    destruct (N.eqb ch openBrace); [apply Hs|].
    destruct (N.eqb ch closeBrace); [|apply Hs].
    destruct (Z.eqb (d - 1) 0); [reflexivity | apply Hs].
Qed.

(** Enough fuel: the loop returns, and what it returns does not depend on
    the fuel left over. *)
Lemma extractLoop_fuel (fuel : nat) :
  forall (prompt : jsstring) (index : nat) (acc : list FileInjection)
         (fuel' : nat),
    length prompt - index < fuel -> length prompt - index < fuel' ->
    extractLoop fuel prompt index acc <> None
    /\ extractLoop fuel prompt index acc = extractLoop fuel' prompt index acc.
Proof.
  induction fuel as [|fuel IH]; intros prompt index acc fuel' H1 H2; [lia|].
  destruct fuel' as [|fuel']; [lia|].
  cbn [extractLoop].
  destruct (index <? length prompt) eqn:Hlt; [|split; congruence].
  apply Nat.ltb_lt in Hlt.
  destruct (indexOf prompt AT_FILE_INJECTION_TRIGGER index) as [s|] eqn:Hi;
    [|split; congruence].
  apply indexOf_Some in Hi; [|lia]. destruct Hi as (Hs & _ & _).
  destruct (findEnd _ _ 1) as [c|] eqn:Hf.
  - apply findEnd_bounds in Hf. apply IH; lia.
  - apply IH; lia.
Qed.

(** The scanner returns on every text. *)
Lemma extractLoop_terminates (prompt : jsstring) (index : nat)
    (acc : list FileInjection) :
  extractLoop (S (length prompt - index)) prompt index acc
  = Some (extractFrom prompt index acc).
Proof.
  unfold extractFrom.
  destruct (@extractLoop_fuel (S (length prompt - index)) prompt index acc
              (S (length prompt - index))) as [Hn _]; try lia.
  destruct (extractLoop _ prompt index acc); congruence.
Qed.

Lemma extractFrom_fuel (fuel : nat) (prompt : jsstring) (index : nat)
    (acc : list FileInjection) :
  length prompt - index < fuel ->
  extractLoop fuel prompt index acc = Some (extractFrom prompt index acc).
Proof.
  intros H. rewrite <- extractLoop_terminates.
  apply extractLoop_fuel; lia.
Qed.

(** The loop of [extractInjections], one iteration unfolded. *)
Lemma extractFrom_eq (prompt : jsstring) (index : nat)
    (acc : list FileInjection) :
  extractFrom prompt index acc =
  if index <? length prompt then
    match indexOf prompt AT_FILE_INJECTION_TRIGGER index with
    | None => acc
    | Some startIndex =>
        match findEnd (skipn (startIndex + 2) prompt) (startIndex + 2) 1 with
        | Some currentIndex =>
            extractFrom prompt (currentIndex + 1)
              (acc ++ [spanOf prompt startIndex currentIndex])
        | None => extractFrom prompt (startIndex + 1) acc
        end
    end
  else acc.
Proof.
  unfold extractFrom at 1. cbn [extractLoop].
  destruct (index <? length prompt) eqn:Hlt; [|reflexivity].
  apply Nat.ltb_lt in Hlt.
  destruct (indexOf prompt AT_FILE_INJECTION_TRIGGER index) as [s|] eqn:Hi;
    [|reflexivity].
  apply indexOf_Some in Hi; [|lia]. destruct Hi as (Hs & _ & _).
  rewrite trigger_length.
  destruct (findEnd _ _ 1) as [c|] eqn:Hf.
  - apply findEnd_bounds in Hf.
    rewrite extractFrom_fuel by lia. reflexivity.
  - rewrite extractFrom_fuel by lia. reflexivity.
Qed.

(** Induction along the scan: positions only move forward, and never past
    the end of the text. *)
Lemma upward_ind (n : nat) (P : nat -> Prop) :
  (forall i, (forall j, i < j -> j <= n -> P j) -> P i) -> forall i, P i.
Proof.
  intros step.
  assert (H : forall k i, n - i < k -> P i).
  { induction k as [|k IH]; intros i Hk; [lia|].
    apply step. intros j Hij Hjn. apply IH. lia. }
  intros i. apply (H (S (n - i))). lia.
Qed.

(** The brace counter against the two notions of the specification. *)
Lemma braceCount_step (d : nat) :
  (Z.of_nat d + 1 + 1 = Z.of_nat (S d) + 1)%Z.
Proof. lia. Qed.

Lemma findEnd_closed (inner post : jsstring) :
  forall (d i : nat),
    balancedFrom d inner = true ->
    findEnd (inner ++ closeBrace :: post) i (Z.of_nat d + 1)
    = Some (i + length inner).
Proof.
  induction inner as [|ch inner IH]; intros d i H; simpl in H |- *.
  - apply Nat.eqb_eq in H. subst d. simpl. f_equal. lia.
  - destruct (N.eqb ch openBrace).
    + rewrite braceCount_step, IH by exact H. f_equal. lia.
    + destruct (N.eqb ch closeBrace).
      * destruct d as [|d]; [discriminate|].
        replace (Z.of_nat (S d) + 1 - 1)%Z with (Z.of_nat d + 1)%Z by lia.
        destruct (Z.eqb_spec (Z.of_nat d + 1) 0) as [E|_]; [lia|].
        rewrite IH by exact H. f_equal. lia.
      * rewrite IH by exact H. f_equal. lia.
Qed.

Lemma findEnd_Some_inv (rest : jsstring) :
  forall (d i c : nat),
    findEnd rest i (Z.of_nat d + 1) = Some c ->
    exists inner post,
      rest = inner ++ closeBrace :: post
      /\ balancedFrom d inner = true /\ c = i + length inner.
Proof.
  induction rest as [|ch rest IH]; intros d i c H; simpl in H.
  - discriminate.
  - destruct (N.eqb ch openBrace) eqn:Eo.
    + rewrite braceCount_step in H. apply IH in H.
      destruct H as (inner & post & -> & Hb & ->).
      exists (ch :: inner), post. simpl. rewrite Eo.
      repeat split; [exact Hb | lia].
    + destruct (N.eqb ch closeBrace) eqn:Ec.
      * destruct (Z.eqb_spec (Z.of_nat d + 1 - 1) 0) as [E|E].
        -- injection H as <-. apply N.eqb_eq in Ec. subst ch.
           exists [], rest. assert (d = 0) as -> by lia.
           repeat split. simpl. lia.
        -- destruct d as [|d]; [lia|].
           replace (Z.of_nat (S d) + 1 - 1)%Z
             with (Z.of_nat d + 1)%Z in H by lia.
           apply IH in H. destruct H as (inner & post & -> & Hb & ->).
           exists (ch :: inner), post. simpl. rewrite Eo, Ec.
           repeat split; [exact Hb | lia].
      * apply IH in H. destruct H as (inner & post & -> & Hb & ->).
        exists (ch :: inner), post. simpl. rewrite Eo, Ec.
        repeat split; [exact Hb | lia].
Qed.

Lemma findEnd_None_iff (rest : jsstring) :
  forall (d i : nat),
    findEnd rest i (Z.of_nat d + 1) = None <-> staysOpen d rest = true.
Proof.
  induction rest as [|ch rest IH]; intros d i; simpl.
  - tauto.
  - destruct (N.eqb ch openBrace).
    + rewrite braceCount_step. apply IH.
    + destruct (N.eqb ch closeBrace); [|apply IH].
      destruct d as [|d].
      * simpl. split; discriminate.
      * replace (Z.of_nat (S d) + 1 - 1)%Z with (Z.of_nat d + 1)%Z by lia.
        destruct (Z.eqb_spec (Z.of_nat d + 1) 0) as [E|_]; [lia|].
        apply IH.
Qed.

(** Where one iteration of the scan can land. *)
Lemma trigger_bounds (prompt : jsstring) (index s : nat) :
  index <= length prompt ->
  indexOf prompt AT_FILE_INJECTION_TRIGGER index = Some s ->
  index <= s /\ s + 2 <= length prompt.
Proof.
  intros Hi H. apply indexOf_Some in H; [|exact Hi].
  rewrite trigger_length in H. lia.
Qed.

Lemma close_bounds (prompt : jsstring) (s c : nat) :
  s + 2 <= length prompt ->
  findEnd (skipn (s + 2) prompt) (s + 2) 1 = Some c ->
  s + 2 <= c < length prompt.
Proof.
  intros Hs H. apply findEnd_bounds in H. rewrite length_skipn in H. lia.
Qed.

(** The spans already collected are kept, new ones are added after them. *)
Lemma extractFrom_acc (prompt : jsstring) :
  forall (index : nat) (acc : list FileInjection),
    extractFrom prompt index acc = acc ++ extractFrom prompt index [].
Proof.
  intros index.
  induction index as [index IH] using (@upward_ind (length prompt)).
  intros acc.
  rewrite (extractFrom_eq prompt index acc), (extractFrom_eq prompt index []).
  destruct (index <? length prompt) eqn:Hlt; [|now rewrite app_nil_r].
  apply Nat.ltb_lt in Hlt.
  destruct (indexOf prompt AT_FILE_INJECTION_TRIGGER index) as [s|] eqn:Hi;
    [|now rewrite app_nil_r].
  apply trigger_bounds in Hi; [|lia].
  destruct (findEnd _ _ 1) as [c|] eqn:Hf.
  - apply close_bounds in Hf; [|lia].
    rewrite (IH (c + 1)) by lia.
    rewrite (IH (c + 1) ltac:(lia) ltac:(lia) ([] ++ _)).
    rewrite app_assoc. reflexivity.
  - apply IH; lia.
Qed.

(** Scanning a text from behind a prefix is scanning the rest of the text,
    with the spans moved by the length of the prefix. *)
Lemma extractFrom_app (pre s : jsstring) :
  forall j : nat,
    extractFrom (pre ++ s) (length pre + j) []
    = map (shift (length pre)) (extractFrom s j []).
Proof.
  intros j. induction j as [j IH] using (@upward_ind (length s)).
  rewrite (extractFrom_eq (pre ++ s)), (extractFrom_eq s).
  replace (length pre + j <? length (pre ++ s)) with (j <? length s).
  2:{ rewrite length_app.
      destruct (Nat.ltb_spec j (length s)); symmetry;
        [apply Nat.ltb_lt | apply Nat.ltb_ge]; lia. }
  destruct (j <? length s) eqn:Hlt; [|reflexivity].
  apply Nat.ltb_lt in Hlt.
  rewrite indexOf_app_shift.
  destruct (indexOf s AT_FILE_INJECTION_TRIGGER j) as [k|] eqn:Hi;
    [|reflexivity].
  cbn [option_map]. apply trigger_bounds in Hi; [|lia].
  replace (length pre + k + 2) with (length pre + (k + 2)) by lia.
  rewrite skipn_app_shift.
  rewrite (findEnd_shift _ (length pre + (k + 2))).
  rewrite (findEnd_shift _ (k + 2)).
  destruct (findEnd (skipn (k + 2) s) 0 1) as [c|] eqn:Hf; cbn [option_map].
  - apply findEnd_bounds in Hf. rewrite length_skipn in Hf.
    rewrite extractFrom_acc, (extractFrom_acc s).
    replace (c + (length pre + (k + 2)) + 1)
      with (length pre + (c + (k + 2) + 1)) by lia.
    rewrite IH by lia. cbn [app map]. f_equal.
    unfold spanOf, shift. cbn [path startIndex endIndex].
    rewrite trigger_length.
    replace (length pre + k + 2) with (length pre + (k + 2)) by lia.
    replace (c + (length pre + (k + 2))) with (length pre + (c + (k + 2)))
      by lia.
    rewrite substring_app_shift. f_equal. lia.
  - replace (length pre + k + 1) with (length pre + (k + 1)) by lia.
    apply IH; lia.
Qed.

(** A text without the trigger has no spans. *)
Lemma extractInjections_no_trigger (prompt : jsstring) :
  includes prompt AT_FILE_INJECTION_TRIGGER = false ->
  extractInjections prompt = [].
Proof.
  intros H. unfold extractInjections. rewrite extractFrom_eq.
  destruct (0 <? length prompt); [|reflexivity].
  unfold includes in H.
  destruct (indexOf prompt AT_FILE_INJECTION_TRIGGER 0); [discriminate|].
  reflexivity.
Qed.

(** After a text without the trigger, a trigger is the first one found. *)
Lemma startsWith_before_trigger (a rest : jsstring) :
  a <> [] ->
  startsWith a AT_FILE_INJECTION_TRIGGER = false ->
  startsWith (a ++ AT_FILE_INJECTION_TRIGGER ++ rest)
    AT_FILE_INJECTION_TRIGGER = false.
Proof.
  intros Ha H. destruct a as [|x [|y a]]; [congruence| |exact H].
  simpl. apply andb_false_r.
Qed.

Lemma indexOf_first_trigger (pre rest : jsstring) :
  includes pre AT_FILE_INJECTION_TRIGGER = false ->
  indexOf (pre ++ AT_FILE_INJECTION_TRIGGER ++ rest)
    AT_FILE_INJECTION_TRIGGER 0
  = Some (length pre).
Proof.
  intros H. unfold indexOf. cbn [skipn Nat.min].
  apply (@indexOfAux_first AT_FILE_INJECTION_TRIGGER (length pre) _ 0).
  - intros j Hj. rewrite skipn_app.
    replace (j - length pre) with 0 by lia. cbn [skipn].
    apply startsWith_before_trigger.
    + intros E. apply (f_equal (@length N)) in E.
      rewrite length_skipn in E. simpl in E. lia.
    + apply includes_false. exact H.
  - rewrite <- (Nat.add_0_r (length pre)), skipn_app_shift. cbn [skipn].
    apply startsWith_app.
Qed.

(** One iteration of the scan at a trigger that is never closed: the
    candidate is dropped and the scan goes on one position after the
    trigger's first character, with the spans collected so far. *)
Lemma extractFrom_unclosed_step (prompt : jsstring) (index s : nat)
    (acc : list FileInjection) :
  index < length prompt ->
  indexOf prompt AT_FILE_INJECTION_TRIGGER index = Some s ->
  staysOpen 0 (skipn (s + 2) prompt) = true ->
  extractFrom prompt index acc = extractFrom prompt (s + 1) acc.
Proof.
  intros Hlt Hi Hopen. rewrite extractFrom_eq.
  apply Nat.ltb_lt in Hlt. rewrite Hlt, Hi.
  change 1%Z with (Z.of_nat 0 + 1)%Z.
  apply (findEnd_None_iff (skipn (s + 2) prompt) 0 (s + 2)) in Hopen.
  rewrite Hopen. reflexivity.
Qed.

(** One iteration of the scan at a trigger followed by a balanced inner
    text and a closing brace: a span for it, from the trigger to just past
    that brace, with the inner text trimmed; the scan goes on after it. *)
Lemma extractFrom_closed_step (prompt : jsstring) (index s : nat)
    (acc : list FileInjection) (inner post : jsstring) :
  index < length prompt ->
  indexOf prompt AT_FILE_INJECTION_TRIGGER index = Some s ->
  skipn (s + 2) prompt = inner ++ closeBrace :: post ->
  balanced inner = true ->
  extractFrom prompt index acc
  = extractFrom prompt (s + length inner + 3)
      (acc ++ [{| path := trim inner;
                  startIndex := s;
                  endIndex := s + length inner + 3 |}]).
Proof.
  intros Hlt Hi Hskip Hbal. rewrite extractFrom_eq.
  pose proof (@trigger_bounds prompt index s ltac:(lia) Hi) as Hs.
  apply Nat.ltb_lt in Hlt. rewrite Hlt, Hi, Hskip.
  change 1%Z with (Z.of_nat 0 + 1)%Z.
  rewrite findEnd_closed by exact Hbal.
  assert (Hlen : length prompt = s + 2 + length inner + 1 + length post).
  { pose proof (f_equal (@length N) Hskip) as H.
    rewrite length_skipn, length_app in H. simpl in H. lia. }
  replace (s + 2 + length inner + 1) with (s + length inner + 3) by lia.
  do 2 f_equal. unfold spanOf. rewrite trigger_length.
  f_equal. f_equal; [f_equal | lia].
  rewrite substring_ordered by lia. rewrite Hskip.
  replace (s + 2 + length inner - (s + 2)) with (length inner + 0) by lia.
  rewrite firstn_app_2. cbn [firstn]. apply app_nil_r.
Qed.

(** The scan at a closed injection that no trigger precedes: one span for
    it, then the scan of what follows the closing brace. *)
Lemma extractInjections_closed (pre inner post : jsstring) :
  includes pre AT_FILE_INJECTION_TRIGGER = false ->
  balanced inner = true ->
  extractInjections
    (pre ++ AT_FILE_INJECTION_TRIGGER ++ inner ++ closeBrace :: post)
  = {| path := trim inner;
       startIndex := length pre;
       endIndex := length pre + length inner + 3 |}
    :: map (shift (length pre + length inner + 3)) (extractInjections post).
Proof.
  intros Hpre Hbal. unfold extractInjections at 1. rewrite extractFrom_eq.
  rewrite indexOf_first_trigger by exact Hpre.
  replace (0 <? length _) with true.
  2:{ symmetry. apply Nat.ltb_lt. rewrite !length_app. simpl. lia. }
  set (prompt := pre ++ _).
  assert (Hskip : skipn (length pre + 2) prompt = inner ++ closeBrace :: post).
  { unfold prompt. rewrite app_assoc.
    replace (length pre + 2)
      with (length (pre ++ AT_FILE_INJECTION_TRIGGER) + 0)
      by (rewrite length_app; simpl; lia).
    apply skipn_app_shift. }
  rewrite Hskip.
  change 1%Z with (Z.of_nat 0 + 1)%Z.
  rewrite findEnd_closed by exact Hbal.
  rewrite extractFrom_acc. cbn [app]. f_equal.
  - unfold spanOf. rewrite trigger_length. f_equal; [|lia].
    f_equal. unfold prompt. rewrite app_assoc.
    replace (length pre + 2) with (length (pre ++ AT_FILE_INJECTION_TRIGGER))
      by (rewrite length_app; simpl; lia).
    apply (substring_middle _ inner (closeBrace :: post)).
  - unfold prompt.
    replace (pre ++ AT_FILE_INJECTION_TRIGGER ++ inner ++ closeBrace :: post)
      with ((pre ++ AT_FILE_INJECTION_TRIGGER ++ inner ++ [closeBrace]) ++ post)
      by (rewrite <- !app_assoc; reflexivity).
    replace (length pre + 2 + length inner + 1)
      with (length (pre ++ AT_FILE_INJECTION_TRIGGER ++ inner ++ [closeBrace])
            + 0)
      by (rewrite !length_app; simpl; lia).
    rewrite extractFrom_app.
    replace (length (pre ++ AT_FILE_INJECTION_TRIGGER ++ inner ++ [closeBrace]))
      with (length pre + length inner + 3)
      by (rewrite !length_app; simpl; lia).
    reflexivity.
Qed.

(** The scan at a trigger that is never closed and that no trigger
    precedes: it goes on from the character after the [@]. *)
Lemma extractInjections_unclosed (pre rest : jsstring) :
  includes pre AT_FILE_INJECTION_TRIGGER = false ->
  staysOpen 0 rest = true ->
  extractInjections (pre ++ AT_FILE_INJECTION_TRIGGER ++ rest)
  = extractFrom (pre ++ AT_FILE_INJECTION_TRIGGER ++ rest) (length pre + 1) [].
Proof.
  intros Hpre Hopen. unfold extractInjections at 1. rewrite extractFrom_eq.
  rewrite indexOf_first_trigger by exact Hpre.
  replace (0 <? length _) with true.
  2:{ symmetry. apply Nat.ltb_lt. rewrite !length_app. simpl. lia. }
  replace (skipn (length pre + 2) (pre ++ AT_FILE_INJECTION_TRIGGER ++ rest))
    with rest.
  2:{ rewrite app_assoc.
      replace (length pre + 2)
        with (length (pre ++ AT_FILE_INJECTION_TRIGGER) + 0)
        by (rewrite length_app; simpl; lia).
      now rewrite skipn_app_shift. }
  change 1%Z with (Z.of_nat 0 + 1)%Z.
  apply (findEnd_None_iff rest 0 (length pre + 2)) in Hopen.
  rewrite Hopen. reflexivity.
Qed.

(** The spans come in order, without overlap, inside the text. *)
Lemma ordered_weaken (last last' len : nat) (spans : list FileInjection) :
  last' <= last -> ordered last len spans -> ordered last' len spans.
Proof. destruct spans; simpl; intuition lia. Qed.

Lemma ordered_le (last len : nat) (spans : list FileInjection) :
  ordered last len spans -> last <= len.
Proof.
  revert last. induction spans as [|inj spans IH]; simpl; intros last H.
  - exact H.
  - destruct H as (H1 & H2 & H3). apply IH in H3. lia.
Qed.

Lemma extractFrom_ordered (prompt : jsstring) :
  forall index : nat,
    index <= length prompt ->
    ordered index (length prompt) (extractFrom prompt index []).
Proof.
  intros index.
  induction index as [index IH] using (@upward_ind (length prompt)).
  intros Hle. rewrite extractFrom_eq.
  destruct (index <? length prompt) eqn:Hlt; [|exact Hle].
  destruct (indexOf prompt AT_FILE_INJECTION_TRIGGER index) as [s|] eqn:Hi;
    [|exact Hle].
  apply trigger_bounds in Hi; [|lia].
  destruct (findEnd _ _ 1) as [c|] eqn:Hf.
  - apply close_bounds in Hf; [|lia].
    rewrite extractFrom_acc. cbn [app ordered spanOf startIndex endIndex].
    repeat split; try lia. apply IH; lia.
  - apply ordered_weaken with (last := s + 1); [lia|]. apply IH; lia.
Qed.

(** Every span the scanner returns covers a closed injection of the text,
    and carries its inner text, trimmed. *)
Lemma extractFrom_wellFormed (prompt : jsstring) :
  forall index : nat,
    Forall (wellFormedAt prompt) (extractFrom prompt index []).
Proof.
  intros index.
  induction index as [index IH] using (@upward_ind (length prompt)).
  rewrite extractFrom_eq.
  destruct (index <? length prompt) eqn:Hlt; [|constructor].
  apply Nat.ltb_lt in Hlt.
  destruct (indexOf prompt AT_FILE_INJECTION_TRIGGER index) as [s|] eqn:Hi;
    [|constructor].
  pose proof (@trigger_bounds prompt index s ltac:(lia) Hi) as Hs.
  apply indexOf_Some in Hi; [|lia]. destruct Hi as (_ & _ & Hat).
  destruct (findEnd _ _ 1) as [c|] eqn:Hf.
  - pose proof (@close_bounds prompt s c ltac:(lia) Hf) as Hc.
    rewrite extractFrom_acc. cbn [app]. constructor; [|apply IH; lia].
    apply startsWith_inv in Hat. destruct Hat as [rest Hrest].
    assert (Hprompt :
      prompt = firstn s prompt ++ AT_FILE_INJECTION_TRIGGER ++ rest).
    { rewrite <- Hrest. symmetry. apply firstn_skipn. }
    assert (Hlen : length (firstn s prompt) = s)
      by (rewrite length_firstn; lia).
    assert (Hskip : skipn (s + 2) prompt = rest).
    { rewrite Hprompt at 1. rewrite app_assoc.
      replace (s + 2)
        with (length (firstn s prompt ++ AT_FILE_INJECTION_TRIGGER) + 0)
        by (rewrite length_app, Hlen; simpl; lia).
      apply skipn_app_shift. }
    rewrite Hskip in Hf. change 1%Z with (Z.of_nat 0 + 1)%Z in Hf.
    apply findEnd_Some_inv in Hf.
    destruct Hf as (inner & after & -> & Hbal & ->).
    exists (firstn s prompt), inner, after.
    cbn [spanOf startIndex endIndex path].
    repeat split; try (rewrite ?Hlen; lia); [exact Hprompt | exact Hbal |].
    f_equal. rewrite trigger_length. rewrite Hprompt, app_assoc.
    replace (s + 2) with (length (firstn s prompt ++ AT_FILE_INJECTION_TRIGGER))
      by (rewrite length_app, Hlen; simpl; lia).
    apply (substring_middle _ inner (closeBrace :: after)).
  - apply IH; lia.
Qed.

End ScannerFacts.

(** ** The expander: its loop against the specification's rendering *)

Module ExpanderFacts.

Import JSFacts ScannerFacts.

Section Loop.

Variables W World : Type.
Variable readPath : jsstring -> W -> World -> result thrown jsstring * World.
Variable prompt : jsstring.
Variable cfg : Config W.

Local Abbreviation step := (loopBody readPath prompt cfg).
Local Abbreviation resolved :=
  (resolveAll readPath (getWorkspaceContext cfg)).

(** The loop over the spans: what it appends is the rendering of the spans
    with their outcomes, what it emits are their events, in order. *)
Lemma fold_loopBody (spans : list FileInjection) :
  forall st : LoopState World,
    let st' := fold_left step spans st in
    let l := fst (resolved spans (world st)) in
    processedPrompt st' ++ substringFrom prompt (lastIndex st')
    = processedPrompt st ++ render prompt (lastIndex st) (replaced prompt l)
    /\ events st' = events st ++ flat_map eventsOf l
    /\ world st' = snd (resolved spans (world st)).
Proof.
  induction spans as [|inj spans IH]; intros st.
  - cbn. rewrite app_nil_r. repeat split.
  - cbn [fold_left]. specialize (IH (step st inj)).
    cbv zeta in IH |- *. destruct IH as (IH1 & IH2 & IH3).
    rewrite IH1, IH2, IH3. clear IH1 IH2 IH3.
    assert (Hres : resolved (inj :: spans) (world st)
      = let (o, world1) :=
          readPath (path inj) (getWorkspaceContext cfg) (world st) in
        let (rest, world2) := resolved spans world1 in
        ((inj, o) :: rest, world2)) by reflexivity.
    rewrite Hres. clear Hres. unfold loopBody.
    destruct (readPath (path inj) (getWorkspaceContext cfg) (world st))
      as [[content|error] world1];
      cbn [processedPrompt lastIndex events world];
      destruct (resolved spans world1) as [rest world2];
      cbn [fst snd replaced map render replacement flat_map eventsOf];
      rewrite <- !app_assoc; repeat split.
Qed.

(** [process], when the configuration service is there: the rendering of
    the scanner's spans with the outcomes of resolving them in order. *)
Lemma process_spec (context : CommandContext W) (world0 : World) :
  config context = Some cfg ->
  let l := fst (resolved (extractInjections prompt) world0) in
  process readPath prompt context world0
  = {| output := render prompt 0 (replaced prompt l);
       trace := flat_map eventsOf l;
       finalWorld := snd (resolved (extractInjections prompt) world0) |}.
Proof.
  intros Hcfg. cbv zeta. unfold process.
  assert (Hnil : extractInjections prompt = [] ->
    {| output := prompt; trace := []; finalWorld := world0 |}
    = {| output := render prompt 0
           (replaced prompt (fst (resolved (extractInjections prompt) world0)));
         trace := flat_map eventsOf
           (fst (resolved (extractInjections prompt) world0));
         finalWorld := snd (resolved (extractInjections prompt) world0) |}).
  { intros ->.
    cbn [resolveAll fst snd replaced map render flat_map].
    rewrite substringFrom_0. reflexivity. }
  destruct (includes prompt AT_FILE_INJECTION_TRIGGER) eqn:Hinc; cbn [negb].
  - rewrite Hcfg.
    destruct (length (extractInjections prompt) =? 0) eqn:Hlen.
    + apply Hnil, length_zero_iff_nil, Nat.eqb_eq, Hlen.
    + pose proof (fold_loopBody (extractInjections prompt)
        {| processedPrompt := []; lastIndex := 0;
           events := []; world := world0 |}) as H.
      cbv zeta in H. cbn [processedPrompt lastIndex events world app] in H.
      destruct H as (H1 & H2 & H3). rewrite H1, H2, H3.
      reflexivity.
  - apply Hnil, extractInjections_no_trigger, Hinc.
Qed.

End Loop.

Lemma notifications_app (t1 t2 : list Event) :
  notifications (t1 ++ t2) = notifications t1 ++ notifications t2.
Proof.
  induction t1 as [|[p|line|item] t1 IH]; simpl; rewrite ?IH; reflexivity.
Qed.

Lemma resolverCalls_app (t1 t2 : list Event) :
  resolverCalls (t1 ++ t2) = resolverCalls t1 ++ resolverCalls t2.
Proof.
  induction t1 as [|[p|line|item] t1 IH]; simpl; rewrite ?IH; reflexivity.
Qed.

(** One notification per failure, none for a success. *)
Lemma notifications_eventsOf
    (l : list (FileInjection * result thrown jsstring)) :
  notifications (flat_map eventsOf l) = failureItems l.
Proof.
  induction l as [|[inj [content|error]] l IH]; cbn [flat_map failureItems].
  - reflexivity.
  - rewrite notifications_app, IH. reflexivity.
  - rewrite notifications_app, IH. reflexivity.
Qed.

Lemma failureItems_length
    (l : list (FileInjection * result thrown jsstring)) :
  length (failureItems l) = failures l.
Proof.
  induction l as [|[inj [content|error]] l IH]; simpl; congruence.
Qed.

(** One call of the resolver per span, with the span's path, in order. *)
Lemma resolverCalls_eventsOf
    (l : list (FileInjection * result thrown jsstring)) :
  resolverCalls (flat_map eventsOf l) = map (fun p => path (fst p)) l.
Proof.
  induction l as [|[inj [content|error]] l IH]; cbn [flat_map map].
  - reflexivity.
  - rewrite resolverCalls_app, IH. reflexivity.
  - rewrite resolverCalls_app, IH. reflexivity.
Qed.

Lemma resolveAll_spans (W World : Type)
    (readPath : jsstring -> W -> World -> result thrown jsstring * World)
    (workspace : W) (spans : list FileInjection) :
  forall world0 : World,
    map fst (fst (resolveAll readPath workspace spans world0)) = spans.
Proof.
  induction spans as [|inj spans IH]; intros world0; cbn [resolveAll].
  - reflexivity.
  - destruct (readPath (path inj) workspace world0) as [o world1].
    specialize (IH world1).
    destruct (resolveAll readPath workspace spans world1) as [rest world2].
    cbn in IH |- *. rewrite IH. reflexivity.
Qed.

Lemma resolveAll_scripted (spans : list FileInjection) :
  forall script : list (result thrown jsstring),
    length script = length spans ->
    fst (resolveAll Fixtures.scripted tt spans script) = combine spans script.
Proof.
  induction spans as [|inj spans IH]; intros [|o script] H;
    try discriminate H; [reflexivity|].
  cbn [resolveAll Fixtures.scripted combine].
  specialize (IH script ltac:(simpl in H; lia)).
  destruct (resolveAll Fixtures.scripted tt spans script) as [rest world2].
  cbn [fst] in IH |- *. rewrite IH. reflexivity.
Qed.

(** Putting each span's own text back gives the text back. *)
Lemma render_verbatim (prompt : jsstring) (spans : list FileInjection) :
  forall last : nat,
    ordered last (length prompt) spans ->
    render prompt last (verbatim prompt spans) = skipn last prompt.
Proof.
  induction spans as [|inj spans IH]; intros last H; cbn [verbatim map render].
  - apply substringFrom_skipn. exact H.
  - destruct H as (H1 & H2 & H3). fold (verbatim prompt spans).
    rewrite IH by exact H3. apply ordered_le in H3. unfold slice.
    rewrite (substring_skipn_split prompt) by lia.
    apply substring_skipn_split; lia.
Qed.

End ExpanderFacts.

(** ** The resolver: the search, and the kinds of its failures *)

Module ResolverFacts.

Section Search.

Variable node : Node.

Lemma searchDirs_first (pathStr : jsstring) (tried later : list jsstring)
    (d : jsstring) :
  Forall (fun d' => accessFails node (resolve node d' pathStr)) tried ->
  access node (resolve node d pathStr) = Ok tt ->
  searchDirs node pathStr (tried ++ d :: later)
  = Some (resolve node d pathStr).
Proof.
  intros Htried Hd. induction Htried as [|d' tried [cause Hfail] _ IH].
  - cbn [app searchDirs]. rewrite Hd. reflexivity.
  - cbn [app searchDirs]. rewrite Hfail. exact IH.
Qed.

Lemma searchDirs_None_iff (pathStr : jsstring) (dirs : list jsstring) :
  searchDirs node pathStr dirs = None
  <-> Forall (fun d => accessFails node (resolve node d pathStr)) dirs.
Proof.
  induction dirs as [|d dirs IH]; cbn [searchDirs].
  - split; [constructor | reflexivity].
  - destruct (access node (resolve node d pathStr)) as [u|cause] eqn:E.
    + split; [discriminate|]. intros H. inversion H as [|? ? [c Hc] _].
      congruence.
    + rewrite IH. split.
      * intros H. constructor; [exists cause; exact E | exact H].
      * intros H. inversion H. assumption.
Qed.

Lemma searchDirs_Some_inv (pathStr : jsstring) (dirs : list jsstring)
    (target : jsstring) :
  searchDirs node pathStr dirs = Some target ->
  exists d, In d dirs /\ target = resolve node d pathStr.
Proof.
  induction dirs as [|d dirs IH]; cbn [searchDirs]; [discriminate|].
  destruct (access node (resolve node d pathStr)).
  - intros [= <-]. exists d. split; [left|]; reflexivity.
  - intros H. destruct (IH H) as (d' & Hin & ->).
    exists d'. split; [right; exact Hin | reflexivity].
Qed.

(** Past the test of line 48 only the file system can fail. *)
Lemma readTarget_Err (pathStr target : jsstring) (e : Error) :
  readTarget node pathStr target = Err e -> exists cause, e = IOFailure cause.
Proof.
  unfold readTarget.
  destruct (stat node target) as [stats|cause];
    [|intros [= <-]; eexists; reflexivity].
  destruct (isDirectory stats).
  - destruct (readdir node target); [discriminate|].
    intros [= <-]. eexists; reflexivity.
  - destruct (readFile node target); [discriminate|].
    intros [= <-]. eexists; reflexivity.
Qed.

(** A directory with at least one child: the header, then one line per
    child. *)
Lemma join_lines (entries : list jsstring) :
  entries <> [] ->
  [LF] ++ lit "- " ++ join ([LF] ++ lit "- ") entries
  = concat (map (fun entry => [LF] ++ lit "- " ++ entry) entries).
Proof.
  induction entries as [|e entries IH]; [congruence|]. intros _.
  destruct entries as [|e' entries].
  - cbn [join map concat]. rewrite app_nil_r. reflexivity.
  - specialize (IH ltac:(discriminate)).
    change (join ([LF] ++ lit "- ") (e :: e' :: entries))
      with (e ++ ([LF] ++ lit "- ") ++ join ([LF] ++ lit "- ") (e' :: entries)).
    remember (e' :: entries) as tl. cbn [map concat].
    rewrite <- IH, <- !app_assoc. reflexivity.
Qed.

Lemma listing_of_nonempty_directory (pathStr target : jsstring)
    (stats : Stats) (entries : list jsstring) :
  stat node target = Ok stats -> isDirectory stats = true ->
  readdir node target = Ok entries -> entries <> [] ->
  readTarget node pathStr target = Ok (listingPerChild pathStr entries).
Proof.
  intros Hstat Hdir Hread Hne. unfold readTarget, listingPerChild.
  rewrite Hstat, Hdir, Hread. rewrite <- (join_lines Hne).
  reflexivity.
Qed.

Lemma resolveAll_readPathIn (workspace : WorkspaceContext)
    (spans : list FileInjection) :
  resolveAll (readPathIn node) workspace spans tt
  = (map (fun inj => (inj, outcomeIn node workspace (path inj))) spans, tt).
Proof.
  induction spans as [|inj spans IH]; cbn [resolveAll map readPathIn];
    [reflexivity|].
  change (readPathIn node (path inj) workspace tt)
    with (outcomeIn node workspace (path inj), tt).
  cbv beta iota. rewrite IH. reflexivity.
Qed.

End Search.

Lemma render_split (prompt : jsstring) (inj : FileInjection)
    (r : jsstring) (l1 l2 : list (FileInjection * jsstring)) :
  forall last : nat,
    render prompt last (l1 ++ (inj, r) :: l2)
    = renderUntil prompt last l1 (startIndex inj) ++ r
      ++ render prompt (endIndex inj) l2.
Proof.
  induction l1 as [|[inj1 r1] l1 IH]; intros last; cbn [app render renderUntil].
  - reflexivity.
  - rewrite IH, <- !app_assoc. reflexivity.
Qed.

Lemma failureItems_app (l1 l2 : list (FileInjection * result thrown jsstring)) :
  failureItems (l1 ++ l2) = failureItems l1 ++ failureItems l2.
Proof.
  induction l1 as [|[inj [content|error]] l1 IH]; cbn [app failureItems];
    rewrite ?IH; reflexivity.
Qed.

End ResolverFacts.

(** * The claims of the specification *)

(** ** The placeholder scanner *)

Module Scanner.

Import JSFacts ScannerFacts ExpanderFacts Fixtures.

(** C2. When the scan meets a trigger whose braces never close before the
    end of the text, the candidate is dropped and the scan goes on from the
    position one past the trigger's first character, with the spans found so
    far.  For such a trigger that no trigger precedes, the spans of the text
    are those of the scan from there, that is, those of the text after the
    [@], moved into place.  A closed injection inside the abandoned region
    is still found, and the text ["Hello @{world"] has no span and is
    returned unchanged by [process], without any effect. *)
Theorem unclosed_trigger_resumes_one_past_start :
  (forall (prompt : jsstring) (index s : nat) (acc : list FileInjection),
     index < length prompt ->
     indexOf prompt AT_FILE_INJECTION_TRIGGER index = Some s ->
     staysOpen 0 (skipn (s + 2) prompt) = true ->
     extractFrom prompt index acc = extractFrom prompt (s + 1) acc)
  /\ (forall pre rest : jsstring,
     includes pre AT_FILE_INJECTION_TRIGGER = false ->
     staysOpen 0 rest = true ->
     let prompt := pre ++ AT_FILE_INJECTION_TRIGGER ++ rest in
     extractInjections prompt = extractFrom prompt (length pre + 1) []
     /\ extractInjections prompt
        = map (shift (length pre + 1)) (extractInjections (openBrace :: rest)))
  /\ extractInjections (lit "@{x{ @{y}")
     = [{| path := lit "y"; startIndex := 5; endIndex := 9 |}]
  /\ extractInjections (lit "Hello @{world") = []
  /\ (forall (W World : Type)
             (readPath : jsstring -> W -> World
                         -> result thrown jsstring * World)
             (context : CommandContext W) (world0 : World),
        process readPath (lit "Hello @{world") context world0
        = {| output := lit "Hello @{world"; trace := [];
             finalWorld := world0 |}).
Proof.
  split; [exact extractFrom_unclosed_step|].
  split; [|split; [|split]].
  - intros pre rest Hpre Hopen prompt.
    assert (H : extractInjections prompt
                = extractFrom prompt (length pre + 1) [])
      by (apply extractInjections_unclosed; assumption).
    split; [exact H|]. rewrite H. unfold prompt.
    change (pre ++ AT_FILE_INJECTION_TRIGGER ++ rest)
      with (pre ++ [64%N] ++ openBrace :: rest).
    rewrite app_assoc.
    replace (length pre + 1) with (length (pre ++ [64%N]) + 0)
      by (rewrite length_app; simpl; lia).
    rewrite extractFrom_app.
    replace (length (pre ++ [64%N])) with (length pre + 1)
      by (rewrite length_app; simpl; lia).
    rewrite Nat.add_0_r. reflexivity.
  - vm_compute. reflexivity.
  - vm_compute. reflexivity.
  - intros W World readPath context world0. unfold process.
    replace (includes (lit "Hello @{world") AT_FILE_INJECTION_TRIGGER)
      with true by (vm_compute; reflexivity).
    replace (extractInjections (lit "Hello @{world")) with (@nil FileInjection)
      by (vm_compute; reflexivity).
    cbn [negb length Nat.eqb]. destruct (config context); reflexivity.
Qed.

Lemma unclosed_trigger_resumes_one_past_start_witness :
  includes (lit "ab") AT_FILE_INJECTION_TRIGGER = false
  /\ staysOpen 0 (lit "x{ @{y}") = true
  /\ extractInjections (lit "ab@{x{ @{y}")
     = map (shift 3) (extractInjections (lit "{x{ @{y}")).
Proof.
  split; [reflexivity | split; [reflexivity|]].
  apply (proj1 (proj2 unclosed_trigger_resumes_one_past_start)
           (lit "ab") (lit "x{ @{y}")); reflexivity.
Defined.

(** C3. When the scan meets a trigger followed by an inner text with
    balanced braces and a closing brace, it records a span from the trigger
    to just past that brace whose path is the inner text, trimmed, and goes
    on after it; so does the scan of a text for a first such injection;
    every span the scanner returns covers such an injection and carries its
    trimmed inner text; trimming removes white space at both ends and
    nothing else.  Nested braces are matched by counting: [@{a/{b}/c}] has
    the path [a/{b}/c], and [@{}] is a span with the empty path. *)
Theorem closed_injection_path_is_trimmed_inner :
  (forall (prompt : jsstring) (index s : nat) (acc : list FileInjection)
          (inner post : jsstring),
     index < length prompt ->
     indexOf prompt AT_FILE_INJECTION_TRIGGER index = Some s ->
     skipn (s + 2) prompt = inner ++ closeBrace :: post ->
     balanced inner = true ->
     extractFrom prompt index acc
     = extractFrom prompt (s + length inner + 3)
         (acc ++ [{| path := trim inner;
                     startIndex := s;
                     endIndex := s + length inner + 3 |}]))
  /\ (forall pre inner post : jsstring,
     includes pre AT_FILE_INJECTION_TRIGGER = false ->
     balanced inner = true ->
     extractInjections
       (pre ++ AT_FILE_INJECTION_TRIGGER ++ inner ++ closeBrace :: post)
     = {| path := trim inner;
          startIndex := length pre;
          endIndex := length pre + length inner + 3 |}
       :: map (shift (length pre + length inner + 3))
            (extractInjections post))
  /\ (forall prompt : jsstring,
        Forall (wellFormedAt prompt) (extractInjections prompt))
  /\ (forall inner : jsstring,
        exists l r,
          inner = l ++ trim inner ++ r
          /\ Forall (fun c => isWhiteSpace c = true) l
          /\ Forall (fun c => isWhiteSpace c = true) r
          /\ match trim inner with
             | [] => True
             | c :: _ => isWhiteSpace c = false
             end
          /\ match rev (trim inner) with
             | [] => True
             | c :: _ => isWhiteSpace c = false
             end)
  /\ extractInjections (lit "@{a/{b}/c}")
     = [{| path := lit "a/{b}/c"; startIndex := 0; endIndex := 10 |}]
  /\ extractInjections (lit "@{}")
     = [{| path := []; startIndex := 0; endIndex := 3 |}].
Proof.
  split; [exact extractFrom_closed_step|].
  split; [|split; [|split; [|split]]].
  - intros pre inner post. apply extractInjections_closed.
  - intros prompt. apply extractFrom_wellFormed.
  - apply trim_spec.
  - vm_compute. reflexivity.
  - vm_compute. reflexivity.
Qed.

Lemma closed_injection_path_is_trimmed_inner_witness :
  includes (lit "see ") AT_FILE_INJECTION_TRIGGER = false
  /\ balanced (lit " src/{a,b}.ts ") = true
  /\ extractInjections (lit "see @{ src/{a,b}.ts } and @{c}")
     = {| path := lit "src/{a,b}.ts"; startIndex := 4; endIndex := 21 |}
       :: map (shift 21) (extractInjections (lit " and @{c}")).
Proof.
  split; [reflexivity | split; [reflexivity|]].
  apply (proj1 (proj2 closed_injection_path_is_trimmed_inner)
           (lit "see ") (lit " src/{a,b}.ts ") (lit " and @{c}"));
    reflexivity.
Defined.

End Scanner.

(** ** The expander *)

Module Expander.

Import JSFacts ScannerFacts ExpanderFacts Fixtures.

(** C5. With the configuration service there, the output of [process] is
    the text in which every span of the scanner is replaced, by the resolved
    content when its resolution succeeded and by its own slice
    [[startIndex, endIndex)] of the prompt when it failed, everything
    between, before and after the spans being kept: the spans are ordered
    and disjoint, the prompt is that very rendering with every span put
    back, and the replacement of a span depends on its own outcome alone.
    This holds for every resolver, and in particular for any list of
    outcomes played back one per span.  With [missing.txt] failing,
    ["Analyze @{missing.txt} and @{ok.txt}"] becomes
    ["Analyze @{missing.txt} and content of ok.txt"]. *)
Theorem splice_replaces_spans_and_keeps_the_rest :
  (forall (W World : Type)
          (readPath : jsstring -> W -> World
                      -> result thrown jsstring * World)
          (prompt : jsstring) (context : CommandContext W) (cfg : Config W)
          (world0 : World),
     config context = Some cfg ->
     let spans := extractInjections prompt in
     let l :=
       fst (resolveAll readPath (getWorkspaceContext cfg) spans world0) in
     map fst l = spans
     /\ ordered 0 (length prompt) spans
     /\ prompt = render prompt 0 (verbatim prompt spans)
     /\ output (process readPath prompt context world0)
        = render prompt 0 (replaced prompt l))
  /\ (forall (prompt : jsstring) (script : list (result thrown jsstring)),
        length script = length (extractInjections prompt) ->
        output (process scripted prompt (withConfig tt) script)
        = render prompt 0
            (replaced prompt (combine (extractInjections prompt) script)))
  /\ output (process (mockReadPath [(lit "missing.txt", lit "File not found")])
               (lit "Analyze @{missing.txt} and @{ok.txt}")
               (withConfig tt) tt)
     = lit "Analyze @{missing.txt} and content of ok.txt".
Proof.
  split; [|split].
  - intros W World readPath prompt context cfg world0 Hcfg spans l.
    split; [apply resolveAll_spans|].
    assert (Hord : ordered 0 (length prompt) spans)
      by (apply extractFrom_ordered; lia).
    split; [exact Hord|]. split.
    + rewrite render_verbatim by exact Hord. reflexivity.
    + rewrite (process_spec readPath prompt context world0 Hcfg). reflexivity.
  - intros prompt script Hlen.
    rewrite (@process_spec _ _ scripted prompt {| getWorkspaceContext := tt |}
               (withConfig tt) script eq_refl).
    cbn [output getWorkspaceContext].
    rewrite resolveAll_scripted by exact Hlen. reflexivity.
  - vm_compute. reflexivity.
Qed.

Lemma splice_replaces_spans_and_keeps_the_rest_witness :
  config (withConfig tt) = Some {| getWorkspaceContext := tt |}
  /\ output (process (mockReadPath []) (lit "Compare @{a.js} with @{b.js}")
               (withConfig tt) tt)
     = render (lit "Compare @{a.js} with @{b.js}") 0
         (replaced (lit "Compare @{a.js} with @{b.js}")
            (fst (resolveAll (mockReadPath []) tt
                    (extractInjections (lit "Compare @{a.js} with @{b.js}"))
                    tt))).
Proof.
  split; [reflexivity|].
  apply (proj1 splice_replaces_spans_and_keeps_the_rest
           unit unit (mockReadPath []) (lit "Compare @{a.js} with @{b.js}")
           (withConfig tt) {| getWorkspaceContext := tt |} tt eq_refl).
Defined.

(** C6. With the configuration service there, the items handed to the
    notification sink during one call are, in order, one per failed
    injection and none for a successful one; the item of a failed injection
    is an [ERROR] whose text is
    [Failed to inject file content for '@{<path>}': <message>], with the
    span's trimmed path and the message of the failure. *)
Theorem one_notification_per_failed_injection :
  (forall (W World : Type)
          (readPath : jsstring -> W -> World
                      -> result thrown jsstring * World)
          (prompt : jsstring) (context : CommandContext W) (cfg : Config W)
          (world0 : World),
     config context = Some cfg ->
     let l := fst (resolveAll readPath (getWorkspaceContext cfg)
                     (extractInjections prompt) world0) in
     let sent :=
       notifications (trace (process readPath prompt context world0)) in
     sent = failureItems l /\ length sent = failures l)
  /\ (forall (inj : FileInjection) (error : thrown),
        failureItem inj error
        = {| type := ERROR;
             text := lit "Failed to inject file content for '@{" ++ path inj
                     ++ lit "}': " ++ messageOf error |})
  /\ notifications
       (trace (process
                 (mockReadPath [(lit "bad-file.txt", lit "Access denied")])
                 (lit "Analyze @{bad-file.txt}") (withConfig tt) tt))
     = [{| type := ERROR;
           text := lit "Failed to inject file content for '@{bad-file.txt}'"
                   ++ lit ": Access denied" |}]
  /\ notifications
       (trace (process (mockReadPath [])
                 (lit "Analyze @{good-file.txt}") (withConfig tt) tt))
     = [].
Proof.
  split; [|split; [|split]].
  - intros W World readPath prompt context cfg world0 Hcfg l sent.
    assert (H : sent = failureItems l).
    { unfold sent.
      rewrite (process_spec readPath prompt context world0 Hcfg).
      cbn [trace]. apply notifications_eventsOf. }
    split; [exact H|]. rewrite H. apply failureItems_length.
  - reflexivity.
  - vm_compute. reflexivity.
  - vm_compute. reflexivity.
Qed.

Lemma one_notification_per_failed_injection_witness :
  config (withConfig tt) = Some {| getWorkspaceContext := tt |}
  /\ length
       (notifications
          (trace (process
                    (mockReadPath [(lit "missing.txt", lit "File not found")])
                    (lit "Analyze @{missing.txt} and @{ok.txt}")
                    (withConfig tt) tt)))
     = failures
         (fst (resolveAll
                 (mockReadPath [(lit "missing.txt", lit "File not found")]) tt
                 (extractInjections
                    (lit "Analyze @{missing.txt} and @{ok.txt}")) tt)).
Proof.
  split; [reflexivity|].
  apply (proj1 one_notification_per_failed_injection
           unit unit (mockReadPath [(lit "missing.txt", lit "File not found")])
           (lit "Analyze @{missing.txt} and @{ok.txt}")
           (withConfig tt) {| getWorkspaceContext := tt |} tt eq_refl).
Defined.

(** C7. A prompt without the trigger, and any prompt when the context has
    no configuration service, is returned as it is: no call of the resolver,
    no event at all, and the resolver's state untouched. *)
Theorem no_trigger_or_no_config_returns_prompt
    (W World : Type)
    (readPath : jsstring -> W -> World -> result thrown jsstring * World)
    (prompt : jsstring) (context : CommandContext W) (world0 : World) :
  includes prompt AT_FILE_INJECTION_TRIGGER = false \/ config context = None ->
  process readPath prompt context world0
  = {| output := prompt; trace := []; finalWorld := world0 |}
  /\ resolverCalls (trace (process readPath prompt context world0)) = [].
Proof.
  intros H.
  assert (E : process readPath prompt context world0
              = {| output := prompt; trace := []; finalWorld := world0 |}).
  { unfold process. destruct H as [H|H].
    - rewrite H. reflexivity.
    - rewrite H. destruct (includes prompt AT_FILE_INJECTION_TRIGGER);
        reflexivity. }
  rewrite E. split; reflexivity.
Qed.

Lemma no_trigger_or_no_config_returns_prompt_witness :
  (includes (lit "Analyze @{file.txt}") AT_FILE_INJECTION_TRIGGER = false
   \/ config (withoutConfig unit) = None)
  /\ process (mockReadPath []) (lit "Analyze @{file.txt}")
       (withoutConfig unit) tt
     = {| output := lit "Analyze @{file.txt}"; trace := [];
          finalWorld := tt |}.
Proof.
  split; [right; reflexivity|].
  apply (no_trigger_or_no_config_returns_prompt (mockReadPath [])
           (lit "Analyze @{file.txt}") (withoutConfig unit) tt).
  right. reflexivity.
Defined.

End Expander.

(** ** The resolver, alone and under the expander *)

Module Resolver.

Import JSFacts ScannerFacts ExpanderFacts ResolverFacts Fixtures.

(** C1. An absolute path that the workspace does not contain makes the
    resolver fail with [OutOfBoundsError], whose message ends with the path.
    Under [process], an injection with such a path keeps its own text in the
    output, between the rendering of what precedes it and the rendering of
    what follows, and exactly one notification is sent for it, whose text
    names the path; the other injections are resolved as if it were not
    there. *)
Theorem out_of_bounds_is_absorbed_with_one_notification :
  (forall (node : Node) (p : jsstring)
          (context : CommandContext WorkspaceContext)
          (cfg : Config WorkspaceContext),
     config context = Some cfg ->
     isAbsolute node p = true ->
     isPathWithinWorkspace (getWorkspaceContext cfg) p = false ->
     let ws := getWorkspaceContext cfg in
     let cause :=
       lit "Absolute path is outside of the allowed workspace: " ++ p in
     let item :=
       {| type := ERROR;
          text := lit "Failed to inject file content for '@{" ++ p
                  ++ lit "}': " ++ cause |} in
     readPathFromWorkspace node p ws = Err (OutOfBoundsError p)
     /\ message (OutOfBoundsError p) = cause
     /\ contains (message (OutOfBoundsError p)) p
     /\ contains (text item) p
     /\ forall (prompt : jsstring) (before after : list FileInjection)
               (inj : FileInjection),
          extractInjections prompt = before ++ inj :: after ->
          path inj = p ->
          let others :=
            map (fun i => (i, outcomeIn node ws (path i))) in
          let r := process (readPathIn node) prompt context tt in
          output r
          = renderUntil prompt 0 (replaced prompt (others before))
              (startIndex inj)
            ++ slice prompt inj
            ++ render prompt (endIndex inj) (replaced prompt (others after))
          /\ notifications (trace r)
             = failureItems (others before) ++ [item]
               ++ failureItems (others after))
  /\ (let prompt := lit "Read @{/test/outside/secret.txt} now" in
      let r := process (readPathIn node) prompt (withConfig workspace) tt in
      output r = prompt
      /\ notifications (trace r)
         = [{| type := ERROR;
               text := lit "Failed to inject file content for "
                       ++ lit "'@{/test/outside/secret.txt}': "
                       ++ lit "Absolute path is outside of the allowed "
                       ++ lit "workspace: /test/outside/secret.txt" |}]).
Proof.
  split.
  - intros node p context cfg Hcfg Habs Hout ws cause item.
    assert (Hread : readPathFromWorkspace node p ws = Err (OutOfBoundsError p)).
    { unfold readPathFromWorkspace, findAbsolutePath.
      fold ws in Hout. rewrite Habs, Hout. reflexivity. }
    split; [exact Hread|]. split; [reflexivity|].
    split; [eexists _, []; cbn [message]; rewrite app_nil_r; reflexivity|].
    split.
    { exists (lit "Failed to inject file content for '@{"),
        (lit "}': " ++ cause). reflexivity. }
    intros prompt before after inj Hspans Hpath others r.
    assert (Hout' : outcomeIn node ws (path inj) = Err (ErrorObject cause)).
    { unfold outcomeIn. rewrite Hpath, Hread. reflexivity. }
    unfold r. rewrite (process_spec (readPathIn node) prompt context tt Hcfg).
    fold ws. rewrite resolveAll_readPathIn, Hspans. cbn [fst output trace].
    rewrite map_app. cbn [map]. rewrite Hout'. fold (others before).
    fold (others after). split.
    + unfold replaced. rewrite map_app. cbn [map fst snd replacement].
      apply render_split.
    + rewrite notifications_eventsOf, failureItems_app. cbn [failureItems].
      unfold failureItem. cbn [messageOf]. rewrite Hpath. reflexivity.
  - vm_compute. split; reflexivity.
Qed.

Lemma out_of_bounds_is_absorbed_with_one_notification_witness :
  config (withConfig workspace) = Some {| getWorkspaceContext := workspace |}
  /\ isAbsolute node (lit "/test/outside/secret.txt") = true
  /\ isPathWithinWorkspace workspace (lit "/test/outside/secret.txt") = false
  /\ readPathFromWorkspace node (lit "/test/outside/secret.txt") workspace
     = Err (OutOfBoundsError (lit "/test/outside/secret.txt")).
Proof.
  split; [reflexivity | split; [reflexivity | split; [reflexivity|]]].
  apply (proj1 out_of_bounds_is_absorbed_with_one_notification
           node (lit "/test/outside/secret.txt") (withConfig workspace)
           {| getWorkspaceContext := workspace |} eq_refl eq_refl eq_refl).
Defined.

(** C4. For a relative path the roots are tried in the order
    [getDirectories] gives them, and the first root under which the
    candidate exists is the one read: with the roots before it all failing
    the existence check, the result is what reading that candidate gives.
    In particular a path that exists under the first root is read there,
    whatever the other roots hold. *)
Theorem relative_path_first_existing_root_wins :
  (forall (node : Node) (ws : WorkspaceContext) (p d : jsstring)
          (tried later : list jsstring),
     isAbsolute node p = false ->
     resolve node d p <> [] ->
     getDirectories ws = tried ++ d :: later ->
     Forall (fun d' => accessFails node (resolve node d' p)) tried ->
     access node (resolve node d p) = Ok tt ->
     readPathFromWorkspace node p ws = readTarget node p (resolve node d p))
  /\ (forall (node : Node) (ws : WorkspaceContext) (p primary : jsstring)
             (additional : list jsstring),
        isAbsolute node p = false ->
        resolve node primary p <> [] ->
        getDirectories ws = primary :: additional ->
        access node (resolve node primary p) = Ok tt ->
        readPathFromWorkspace node p ws
        = readTarget node p (resolve node primary p))
  /\ readPathFromWorkspace node (lit "file.txt") workspace
     = Ok (lit "hello from cwd")
  /\ readPathFromWorkspace node (lit "only.txt") workspace
     = Ok (lit "only in other").
Proof.
  assert (H : forall (node : Node) (ws : WorkspaceContext) (p d : jsstring)
                     (tried later : list jsstring),
     isAbsolute node p = false ->
     resolve node d p <> [] ->
     getDirectories ws = tried ++ d :: later ->
     Forall (fun d' => accessFails node (resolve node d' p)) tried ->
     access node (resolve node d p) = Ok tt ->
     readPathFromWorkspace node p ws = readTarget node p (resolve node d p)).
  { intros node ws p d tried later Hrel Hne Hdirs Htried Hd.
    unfold readPathFromWorkspace, findAbsolutePath.
    rewrite Hrel, Hdirs, (@searchDirs_first node p tried later d Htried Hd).
    destruct (resolve node d p); [congruence | reflexivity]. }
  split; [exact H|]. split; [|split; vm_compute; reflexivity].
  intros node ws p primary additional Hrel Hne Hdirs Hd.
  apply (H node ws p primary [] additional); auto.
Qed.

Lemma relative_path_first_existing_root_wins_witness :
  isAbsolute node (lit "only.txt") = false
  /\ resolve node OTHER_DIR (lit "only.txt") <> []
  /\ getDirectories workspace = [CWD] ++ OTHER_DIR :: []
  /\ Forall (fun d' => accessFails node (resolve node d' (lit "only.txt")))
       [CWD]
  /\ access node (resolve node OTHER_DIR (lit "only.txt")) = Ok tt
  /\ readPathFromWorkspace node (lit "only.txt") workspace
     = readTarget node (lit "only.txt")
         (resolve node OTHER_DIR (lit "only.txt")).
Proof.
  assert (Hne : resolve node OTHER_DIR (lit "only.txt") <> [])
    by (vm_compute; discriminate).
  assert (Hfail :
    Forall (fun d' => accessFails node (resolve node d' (lit "only.txt")))
      [CWD]).
  { constructor; [|constructor]. eexists. vm_compute. reflexivity. }
  split; [reflexivity | split; [exact Hne | split; [reflexivity|]]].
  split; [exact Hfail | split; [reflexivity|]].
  apply (proj1 relative_path_first_existing_root_wins
           node workspace (lit "only.txt") OTHER_DIR [CWD] []
           eq_refl Hne eq_refl Hfail eq_refl).
Defined.

(** C8. The listing of a directory without children is not the header
    followed by one line per child: the resolver returns the header and one
    more line, a dash with no entry name, where the specification's words
    give the header alone. *)
Theorem listing_of_empty_directory_has_a_line_for_no_child :
  stat node (lit "/test/cwd/empty") = Ok {| isDirectory := true |}
  /\ readdir node (lit "/test/cwd/empty") = Ok []
  /\ readPathFromWorkspace node (lit "empty") workspace
     = Ok (lit "Directory listing for empty:" ++ [LF] ++ lit "- ")
  /\ listingPerChild (lit "empty") [] = lit "Directory listing for empty:"
  /\ readPathFromWorkspace node (lit "empty") workspace
     <> Ok (listingPerChild (lit "empty") []).
Proof.
  repeat split; try (vm_compute; reflexivity).
  vm_compute. discriminate.
Qed.

(** The claim of C9 on an absolute path, refuted: a path inside the
    workspace whose target is missing makes the resolver fail with the
    failure of [fs.stat], not with [NotFoundError]. *)
Lemma absolute_missing_target_is_not_NotFoundError :
  isAbsolute node (lit "/test/cwd/gone.txt") = true
  /\ isPathWithinWorkspace workspace (lit "/test/cwd/gone.txt") = true
  /\ accessFails node (lit "/test/cwd/gone.txt")
  /\ readPathFromWorkspace node (lit "/test/cwd/gone.txt") workspace
     = Err (IOFailure
              (lit "ENOENT: no such file or directory, stat "
               ++ lit "'/test/cwd/gone.txt'"))
  /\ ~ (exists q,
          readPathFromWorkspace node (lit "/test/cwd/gone.txt") workspace
          = Err (NotFoundError q)).
Proof.
  split; [reflexivity | split; [reflexivity | split; [|split]]].
  - eexists. vm_compute. reflexivity.
  - vm_compute. reflexivity.
  - intros [q H]. vm_compute in H. discriminate.
Qed.

(** C9, amended. On a platform whose [path.isAbsolute] rejects the empty
    string and whose [path.resolve] never returns it, the resolver fails
    with [NotFoundError] exactly when the path is relative and the existence
    check fails under every configured root, and the error then names that
    path; an absolute path inside the workspace whose [fs.stat] fails, as it
    does for a missing target, fails with that failure instead. *)
Theorem not_found_exactly_for_relative_path_under_no_root
    (node : Node) (ws : WorkspaceContext) (p : jsstring) :
  isAbsolute node [] = false ->
  (forall d, resolve node d p <> []) ->
  (forall q,
     readPathFromWorkspace node p ws = Err (NotFoundError q)
     <-> q = p /\ isAbsolute node p = false
         /\ Forall (fun d => accessFails node (resolve node d p))
              (getDirectories ws))
  /\ (forall cause,
        isAbsolute node p = true ->
        isPathWithinWorkspace ws p = true ->
        stat node p = Err cause ->
        readPathFromWorkspace node p ws = Err (IOFailure cause)).
Proof.
  intros Hempty Hres. split.
  - intros q. unfold readPathFromWorkspace, findAbsolutePath.
    destruct (isAbsolute node p) eqn:Habs.
    + split; [|intros (_ & H & _); discriminate].
      destruct (isPathWithinWorkspace ws p); cbn [negb]; [|discriminate].
      destruct p as [|c p]; [congruence|].
      intros H. apply readTarget_Err in H. destruct H as [cause H].
      discriminate.
    + destruct (searchDirs node p (getDirectories ws)) as [target|] eqn:Hs.
      * split.
        -- destruct target as [|c target].
           ++ apply searchDirs_Some_inv in Hs. destruct Hs as (d & _ & Hd).
              symmetry in Hd. destruct (Hres d Hd).
           ++ intros H. apply readTarget_Err in H. destruct H as [cause H].
              discriminate.
        -- intros (_ & _ & H). apply searchDirs_None_iff in H. congruence.
      * apply searchDirs_None_iff in Hs. split.
        -- intros [= <-]. auto.
        -- intros (-> & _ & _). reflexivity.
  - intros cause Habs Hin Hstat.
    unfold readPathFromWorkspace, findAbsolutePath.
    rewrite Habs, Hin. cbn [negb].
    destruct p as [|c p]; [congruence|].
    unfold readTarget. rewrite Hstat. reflexivity.
Qed.

Lemma not_found_exactly_for_relative_path_under_no_root_witness :
  isAbsolute node [] = false
  /\ (forall d, resolve node d (lit "not-found.txt") <> [])
  /\ readPathFromWorkspace node (lit "not-found.txt") workspace
     = Err (NotFoundError (lit "not-found.txt")).
Proof.
  assert (Hres : forall d, resolve node d (lit "not-found.txt") <> []).
  { intros d. cbn [resolve node mockFs]. unfold posixResolve.
    destruct d; discriminate. }
  split; [reflexivity | split; [exact Hres|]].
  apply (proj1 (@not_found_exactly_for_relative_path_under_no_root
                  node workspace (lit "not-found.txt") eq_refl Hres)
               (lit "not-found.txt")).
  split; [reflexivity | split; [reflexivity|]].
  repeat constructor; eexists; vm_compute; reflexivity.
Defined.

(** C10. When the target is a directory without children, the resolver
    returns [Directory listing for <pathStr>:], a line feed, and a dash
    followed by a space and nothing else. *)
Theorem empty_directory_listing_ends_with_dangling_dash
    (node : Node) (ws : WorkspaceContext) (p target : jsstring)
    (stats : Stats) :
  findAbsolutePath node p ws = Ok (Some target) ->
  target <> [] ->
  stat node target = Ok stats ->
  isDirectory stats = true ->
  readdir node target = Ok [] ->
  readPathFromWorkspace node p ws
  = Ok (lit "Directory listing for " ++ p ++ lit ":" ++ [LF] ++ lit "- ").
Proof.
  intros Hfind Hne Hstat Hdir Hread. unfold readPathFromWorkspace.
  rewrite Hfind. destruct target as [|c target]; [congruence|].
  unfold readTarget. rewrite Hstat, Hdir, Hread. cbn [join].
  rewrite app_nil_r. reflexivity.
Qed.

Lemma empty_directory_listing_ends_with_dangling_dash_witness :
  findAbsolutePath node (lit "empty") workspace
  = Ok (Some (lit "/test/cwd/empty"))
  /\ lit "/test/cwd/empty" <> []
  /\ stat node (lit "/test/cwd/empty") = Ok {| isDirectory := true |}
  /\ isDirectory {| isDirectory := true |} = true
  /\ readdir node (lit "/test/cwd/empty") = Ok []
  /\ readPathFromWorkspace node (lit "empty") workspace
     = Ok (lit "Directory listing for " ++ lit "empty" ++ lit ":" ++ [LF]
           ++ lit "- ").
Proof.
  assert (Hne : lit "/test/cwd/empty" <> []) by discriminate.
  repeat (split; [first [reflexivity | exact Hne]|]).
  apply (@empty_directory_listing_ends_with_dangling_dash
           node workspace (lit "empty") (lit "/test/cwd/empty")
           {| isDirectory := true |} eq_refl Hne eq_refl eq_refl eq_refl).
Defined.

End Resolver.

(** * Further properties of the code *)

(** ** More about the scanner *)

Module ScannerMore.

Import JSFacts ScannerFacts.

Lemma findEnd_noCloseBrace (rest : jsstring) :
  forall (i : nat) (d : Z), noCloseBrace rest = true -> findEnd rest i d = None.
Proof.
  induction rest as [|ch rest IH]; intros i d H; [reflexivity|].
  cbn [noCloseBrace forallb] in H. apply andb_prop in H.
  destruct H as [Hch Hrest]. apply negb_true_iff in Hch.
  cbn [findEnd]. rewrite Hch.
  destruct (N.eqb ch openBrace); apply IH; exact Hrest.
Qed.

Lemma noCloseBrace_skipn (s : jsstring) :
  forall n : nat, noCloseBrace s = true -> noCloseBrace (skipn n s) = true.
Proof.
  induction s as [|c s IH]; intros [|n] H; try exact H.
  cbn [skipn]. apply IH. cbn [noCloseBrace forallb] in H.
  apply andb_prop in H. apply H.
Qed.

Lemma extractFrom_noCloseBrace (prompt : jsstring) :
  noCloseBrace prompt = true ->
  forall index : nat, extractFrom prompt index [] = [].
Proof.
  intros Hno index.
  induction index as [index IH] using (@upward_ind (length prompt)).
  rewrite extractFrom_eq.
  destruct (index <? length prompt) eqn:Hlt; [|reflexivity].
  apply Nat.ltb_lt in Hlt.
  destruct (indexOf prompt AT_FILE_INJECTION_TRIGGER index) as [s|] eqn:Hi;
    [|reflexivity].
  apply trigger_bounds in Hi; [|lia].
  rewrite findEnd_noCloseBrace by (apply noCloseBrace_skipn; exact Hno).
  apply IH; lia.
Qed.

(** Every span takes at least the trigger and the closing brace. *)
Lemma extractFrom_count (prompt : jsstring) :
  forall index : nat,
    index <= length prompt ->
    3 * length (extractFrom prompt index []) + index <= length prompt.
Proof.
  intros index.
  induction index as [index IH] using (@upward_ind (length prompt)).
  intros Hle. rewrite extractFrom_eq.
  destruct (index <? length prompt) eqn:Hlt; [|simpl; lia].
  destruct (indexOf prompt AT_FILE_INJECTION_TRIGGER index) as [s|] eqn:Hi;
    [|simpl; lia].
  apply trigger_bounds in Hi; [|lia].
  destruct (findEnd _ _ 1) as [c|] eqn:Hf.
  - apply close_bounds in Hf; [|lia].
    rewrite extractFrom_acc. cbn [app length].
    specialize (IH (c + 1) ltac:(lia) ltac:(lia) ltac:(lia)). lia.
  - specialize (IH (s + 1) ltac:(lia) ltac:(lia) ltac:(lia)). lia.
Qed.

(** White space is no brace, so trimming keeps the braces balanced. *)
Lemma whiteSpace_not_brace (c : N) :
  isWhiteSpace c = true ->
  N.eqb c openBrace = false /\ N.eqb c closeBrace = false.
Proof.
  intros H. split.
  - destruct (N.eqb_spec c openBrace) as [->|_]; [|reflexivity].
    vm_compute in H. discriminate.
  - destruct (N.eqb_spec c closeBrace) as [->|_]; [|reflexivity].
    vm_compute in H. discriminate.
Qed.

Lemma balancedFrom_skip_front (l s : jsstring) :
  Forall (fun c => isWhiteSpace c = true) l ->
  forall d : nat, balancedFrom d (l ++ s) = balancedFrom d s.
Proof.
  induction 1 as [|c l Hc _ IH]; intros d; [reflexivity|].
  cbn [app balancedFrom]. destruct (whiteSpace_not_brace c Hc) as [-> ->].
  apply IH.
Qed.

Lemma balancedFrom_skip_back (s r : jsstring) :
  Forall (fun c => isWhiteSpace c = true) r ->
  forall d : nat, balancedFrom d (s ++ r) = balancedFrom d s.
Proof.
  intros Hr. induction s as [|c s IH]; intros d.
  - cbn [app]. rewrite <- (app_nil_r r).
    rewrite balancedFrom_skip_front by exact Hr. reflexivity.
  - cbn [app balancedFrom]. destruct d; rewrite ?IH; reflexivity.
Qed.

(** Only the first two characters decide whether the trigger starts a
    text. *)
Lemma startsWith_trigger_firstn (a b : jsstring) :
  a <> [] ->
  startsWith (a ++ b) AT_FILE_INJECTION_TRIGGER
  = startsWith (a ++ firstn 1 b) AT_FILE_INJECTION_TRIGGER.
Proof.
  intros Ha. destruct a as [|x [|y a]]; [congruence| |reflexivity].
  destruct b as [|z b]; reflexivity.
Qed.

Lemma indexOfAux_skip (pat : jsstring) (k : nat) :
  forall (s : jsstring) (i : nat),
    k <= length s ->
    (forall j, j < k -> startsWith (skipn j s) pat = false) ->
    indexOfAux s pat i = indexOfAux (skipn k s) pat (i + k).
Proof.
  induction k as [|k IH]; intros s i Hk Hbefore.
  - cbn [skipn]. rewrite Nat.add_0_r. reflexivity.
  - destruct s as [|c s]; [simpl in Hk; lia|].
    pose proof (Hbefore 0 ltac:(lia)) as H0. cbn [skipn] in H0 |- *.
    cbn [indexOfAux]. rewrite H0.
    rewrite (IH s (S i)).
    + f_equal. lia.
    + simpl in Hk. lia.
    + intros j Hj. apply (Hbefore (S j)). lia.
Qed.

(** Positions before which no trigger starts can be skipped. *)
Lemma extractFrom_skip_prefix (prompt : jsstring) (k : nat) :
  k < length prompt ->
  (forall j, j < k ->
     startsWith (skipn j prompt) AT_FILE_INJECTION_TRIGGER = false) ->
  extractFrom prompt 0 [] = extractFrom prompt k [].
Proof.
  intros Hk Hbefore.
  rewrite (extractFrom_eq prompt 0), (extractFrom_eq prompt k).
  replace (0 <? length prompt) with true
    by (symmetry; apply Nat.ltb_lt; lia).
  replace (k <? length prompt) with true
    by (symmetry; apply Nat.ltb_lt; lia).
  replace (indexOf prompt AT_FILE_INJECTION_TRIGGER k)
    with (indexOf prompt AT_FILE_INJECTION_TRIGGER 0); [reflexivity|].
  unfold indexOf. cbn [skipn Nat.min]. rewrite (Nat.min_l k) by lia.
  apply (@indexOfAux_skip AT_FILE_INJECTION_TRIGGER k prompt 0);
    [lia | exact Hbefore].
Qed.

End ScannerMore.

(** ** More about the expander *)

Module ExpanderMore.

Import JSFacts ScannerFacts ExpanderFacts ResolverFacts.

Lemma consoleLines_app (t1 t2 : list Event) :
  consoleLines (t1 ++ t2) = consoleLines t1 ++ consoleLines t2.
Proof.
  induction t1 as [|[p|line|item] t1 IH]; simpl; rewrite ?IH; reflexivity.
Qed.

Lemma consoleLines_eventsOf
    (l : list (FileInjection * result thrown jsstring)) :
  consoleLines (flat_map eventsOf l)
  = map (fun item => consoleLine (text item)) (failureItems l).
Proof.
  induction l as [|[inj [content|error]] l IH];
    cbn [flat_map failureItems map].
  - reflexivity.
  - rewrite consoleLines_app, IH. reflexivity.
  - rewrite consoleLines_app, IH. reflexivity.
Qed.

Lemma replaced_all_failed (prompt : jsstring)
    (l : list (FileInjection * result thrown jsstring)) :
  Forall failed l -> replaced prompt l = verbatim prompt (map fst l).
Proof.
  induction 1 as [|[inj o] l [error Ho] _ IH]; [reflexivity|].
  cbn [snd] in Ho. subst o. unfold replaced, verbatim in IH |- *.
  cbn [map fst snd replacement]. rewrite IH. reflexivity.
Qed.

Lemma failures_all_failed
    (l : list (FileInjection * result thrown jsstring)) :
  Forall failed l -> failures l = length l.
Proof.
  induction 1 as [|[inj o] l [error Ho] _ IH]; [reflexivity|].
  cbn [snd] in Ho. subst o. cbn [failures length]. rewrite IH. reflexivity.
Qed.

Lemma process_without_config (W World : Type)
    (readPath : jsstring -> W -> World -> result thrown jsstring * World)
    (prompt : jsstring) (context : CommandContext W) (world0 : World) :
  config context = None ->
  process readPath prompt context world0
  = {| output := prompt; trace := []; finalWorld := world0 |}.
Proof.
  intros H. unfold process. rewrite H.
  destruct (includes prompt AT_FILE_INJECTION_TRIGGER); reflexivity.
Qed.

Lemma replaced_readPathIn (node : Node) (ws : WorkspaceContext)
    (prompt : jsstring) (spans : list FileInjection) :
  replaced prompt
    (map (fun inj => (inj, outcomeIn node ws (path inj))) spans)
  = map (fun inj => (inj, replacementIn node ws prompt inj)) spans.
Proof.
  unfold replaced. rewrite map_map. apply map_ext. intros inj.
  cbn [fst snd]. unfold replacementIn, outcomeIn.
  destruct (readPathFromWorkspace node (path inj) ws); reflexivity.
Qed.

Lemma failureItems_readPathIn (node : Node) (ws : WorkspaceContext)
    (spans : list FileInjection) :
  failureItems (map (fun inj => (inj, outcomeIn node ws (path inj))) spans)
  = notificationsIn node ws spans.
Proof.
  induction spans as [|inj spans IH]; [reflexivity|].
  cbn [map failureItems notificationsIn]. unfold outcomeIn at 1.
  destruct (readPathFromWorkspace node (path inj) ws); rewrite IH; reflexivity.
Qed.

End ExpanderMore.

(** ** More about the resolver *)

Module ResolverMore.

Import ResolverFacts.

Lemma searchDirs_Some_access (node : Node) (pathStr : jsstring)
    (dirs : list jsstring) (target : jsstring) :
  searchDirs node pathStr dirs = Some target ->
  exists d,
    In d dirs /\ target = resolve node d pathStr
    /\ access node target = Ok tt.
Proof.
  induction dirs as [|d dirs IH]; cbn [searchDirs]; [discriminate|].
  destruct (access node (resolve node d pathStr)) as [[]|cause] eqn:E.
  - intros [= <-]. exists d. repeat split; [left; reflexivity | exact E].
  - intros H. destruct (IH H) as (d' & Hin & Ht & Ha).
    exists d'. repeat split; [right; exact Hin | exact Ht | exact Ha].
Qed.

End ResolverMore.

(** ** Properties of the scanner and the expander *)

Module ProcessorExtra.

Import JSFacts ScannerFacts ExpanderFacts ResolverFacts Fixtures.
Import ScannerMore ExpanderMore.

(** X1. A prompt without a closing brace has no span, however many
    triggers it holds, and [process] returns it as it is, with no call of
    the resolver and no other event. *)
Theorem prompt_without_closing_brace_is_returned
    (W World : Type)
    (readPath : jsstring -> W -> World -> result thrown jsstring * World)
    (prompt : jsstring) (context : CommandContext W) (world0 : World) :
  noCloseBrace prompt = true ->
  extractInjections prompt = []
  /\ process readPath prompt context world0
     = {| output := prompt; trace := []; finalWorld := world0 |}.
Proof.
  intros Hno.
  assert (Hnil : extractInjections prompt = [])
    by (apply extractFrom_noCloseBrace; exact Hno).
  split; [exact Hnil|]. unfold process. rewrite Hnil. cbn [length Nat.eqb].
  destruct (includes prompt AT_FILE_INJECTION_TRIGGER);
    destruct (config context); reflexivity.
Qed.

Lemma prompt_without_closing_brace_is_returned_witness :
  noCloseBrace (lit "a @{b and @{c{d") = true
  /\ process (mockReadPath []) (lit "a @{b and @{c{d") (withConfig tt) tt
     = {| output := lit "a @{b and @{c{d"; trace := []; finalWorld := tt |}.
Proof.
  split; [reflexivity|].
  apply (@prompt_without_closing_brace_is_returned unit unit
           (mockReadPath []) (lit "a @{b and @{c{d") (withConfig tt) tt).
  reflexivity.
Defined.

(** X2. The path of every span the scanner returns neither starts nor ends
    with white space, and its braces are balanced. *)
Theorem extracted_paths_are_trimmed_and_balanced (prompt : jsstring) :
  Forall (fun inj => trimmed (path inj) /\ balanced (path inj) = true)
    (extractInjections prompt).
Proof.
  pose proof (extractFrom_wellFormed prompt 0) as H.
  fold (extractInjections prompt) in H.
  apply (Forall_impl _ (P := wellFormedAt prompt)); [|exact H].
  intros inj (before & inner & after & _ & Hbal & _ & _ & Hpath).
  destruct (trim_spec inner) as (l & r & Heq & Hl & Hr & Hhead & Hlast).
  rewrite Hpath. split; [split; assumption|].
  unfold balanced in Hbal |- *. rewrite Heq in Hbal.
  rewrite balancedFrom_skip_front in Hbal by exact Hl.
  rewrite balancedFrom_skip_back in Hbal by exact Hr. exact Hbal.
Qed.

(** X3. Text put in front of a prompt changes no span but for its
    position, when that text holds no trigger and forms none with the first
    character of the prompt: the spans are those of the prompt, moved by the
    length of the text. *)
Theorem trigger_free_prefix_moves_spans (pre b : jsstring) :
  includes (pre ++ firstn 1 b) AT_FILE_INJECTION_TRIGGER = false ->
  extractInjections (pre ++ b)
  = map (shift (length pre)) (extractInjections b).
Proof.
  intros H. destruct b as [|z b].
  - rewrite app_nil_r in H |- *.
    rewrite (extractInjections_no_trigger _ H). reflexivity.
  - unfold extractInjections.
    rewrite (@extractFrom_skip_prefix (pre ++ z :: b) (length pre)).
    + rewrite <- (Nat.add_0_r (length pre)) at 1. apply extractFrom_app.
    + rewrite length_app. simpl. lia.
    + intros j Hj. rewrite skipn_app.
      replace (j - length pre) with 0 by lia. cbn [skipn].
      rewrite startsWith_trigger_firstn.
      * pose proof (includes_false _ _ H j) as Hf.
        rewrite skipn_app in Hf.
        replace (j - length pre) with 0 in Hf by lia. exact Hf.
      * intros E. apply (f_equal (@length N)) in E.
        rewrite length_skipn in E. simpl in E. lia.
Qed.

Lemma trigger_free_prefix_moves_spans_witness :
  includes (lit "Hello @" ++ firstn 1 (lit "@{a} and @{b"))
    AT_FILE_INJECTION_TRIGGER = false
  /\ extractInjections (lit "Hello @" ++ lit "@{a} and @{b")
     = map (shift 7) (extractInjections (lit "@{a} and @{b")).
Proof.
  split; [reflexivity|].
  apply (@trigger_free_prefix_moves_spans (lit "Hello @")
           (lit "@{a} and @{b")).
  reflexivity.
Defined.

(** X4. Every span is at least three characters long and ends within the
    text, so a text holds at most a third of its length in spans. *)
Theorem spans_are_at_least_three_long (prompt : jsstring) :
  Forall (fun inj => startIndex inj + 3 <= endIndex inj
                     /\ endIndex inj <= length prompt)
    (extractInjections prompt)
  /\ 3 * length (extractInjections prompt) <= length prompt.
Proof.
  split.
  - pose proof (extractFrom_wellFormed prompt 0) as H.
    fold (extractInjections prompt) in H.
    apply (Forall_impl _ (P := wellFormedAt prompt)); [|exact H].
    intros inj (before & inner & after & Hp & _ & Hs & He & _).
    apply (f_equal (@length N)) in Hp. rewrite !length_app in Hp.
    simpl in Hp. lia.
  - pose proof (@extractFrom_count prompt 0 ltac:(lia)) as H.
    unfold extractInjections. lia.
Qed.

(** X5. With the configuration service there, the resolver is called once
    for each span, in the order of the spans, with the span's path. *)
Theorem resolver_is_called_once_per_span_in_order
    (W World : Type)
    (readPath : jsstring -> W -> World -> result thrown jsstring * World)
    (prompt : jsstring) (context : CommandContext W) (cfg : Config W)
    (world0 : World) :
  config context = Some cfg ->
  resolverCalls (trace (process readPath prompt context world0))
  = map path (extractInjections prompt).
Proof.
  intros Hcfg. rewrite (process_spec readPath prompt context world0 Hcfg).
  cbn [trace]. rewrite resolverCalls_eventsOf.
  rewrite <- (resolveAll_spans readPath (getWorkspaceContext cfg)
                (extractInjections prompt) world0) at 2.
  rewrite map_map. reflexivity.
Qed.

Lemma resolver_is_called_once_per_span_in_order_witness :
  config (withConfig tt) = Some {| getWorkspaceContext := tt |}
  /\ resolverCalls
       (trace (process
                 (mockReadPath [(lit "b.js", lit "File not found")])
                 (lit "Compare @{ a.js } with @{b.js}") (withConfig tt) tt))
     = map path (extractInjections (lit "Compare @{ a.js } with @{b.js}")).
Proof.
  split; [reflexivity|].
  apply (@resolver_is_called_once_per_span_in_order unit unit
           (mockReadPath [(lit "b.js", lit "File not found")])
           (lit "Compare @{ a.js } with @{b.js}") (withConfig tt)
           {| getWorkspaceContext := tt |} tt eq_refl).
Defined.

(** X6. When the resolution of every span fails, the output is the prompt
    itself, and there are as many notifications as spans. *)
Theorem prompt_is_kept_when_every_resolution_fails
    (W World : Type)
    (readPath : jsstring -> W -> World -> result thrown jsstring * World)
    (prompt : jsstring) (context : CommandContext W) (cfg : Config W)
    (world0 : World) :
  config context = Some cfg ->
  Forall failed
    (fst (resolveAll readPath (getWorkspaceContext cfg)
            (extractInjections prompt) world0)) ->
  output (process readPath prompt context world0) = prompt
  /\ length (notifications (trace (process readPath prompt context world0)))
     = length (extractInjections prompt).
Proof.
  intros Hcfg Hfail.
  rewrite (process_spec readPath prompt context world0 Hcfg).
  cbn [output trace]. split.
  - rewrite (replaced_all_failed prompt Hfail), resolveAll_spans.
    apply (render_verbatim prompt (extractInjections prompt) 0).
    apply extractFrom_ordered. lia.
  - rewrite notifications_eventsOf, failureItems_length.
    rewrite (failures_all_failed Hfail).
    rewrite <- (length_map fst), resolveAll_spans. reflexivity.
Qed.

Lemma prompt_is_kept_when_every_resolution_fails_witness :
  config (withConfig tt) = Some {| getWorkspaceContext := tt |}
  /\ output (process
               (mockReadPath [(lit "a", lit "gone"); (lit "b", lit "denied")])
               (lit "x @{a} y @{ b } z") (withConfig tt) tt)
     = lit "x @{a} y @{ b } z".
Proof.
  split; [reflexivity|].
  apply (@prompt_is_kept_when_every_resolution_fails unit unit
           (mockReadPath [(lit "a", lit "gone"); (lit "b", lit "denied")])
           (lit "x @{a} y @{ b } z") (withConfig tt)
           {| getWorkspaceContext := tt |} tt eq_refl).
  repeat constructor; eexists; reflexivity.
Defined.

(** X7. Whatever the context, the lines written with [console.error]
    during a call are, in order, the texts of the notifications sent, each
    between [[AtFileProcessor] ] and [. Leaving placeholder in prompt.]. *)
Theorem console_lines_follow_notifications
    (W World : Type)
    (readPath : jsstring -> W -> World -> result thrown jsstring * World)
    (prompt : jsstring) (context : CommandContext W) (world0 : World) :
  consoleLines (trace (process readPath prompt context world0))
  = map (fun item =>
           lit "[AtFileProcessor] " ++ text item
           ++ lit ". Leaving placeholder in prompt.")
      (notifications (trace (process readPath prompt context world0))).
Proof.
  destruct (config context) as [cfg|] eqn:Hcfg.
  - rewrite (process_spec readPath prompt context world0 Hcfg).
    cbn [trace]. rewrite consoleLines_eventsOf, notifications_eventsOf.
    reflexivity.
  - rewrite (process_without_config readPath prompt context world0 Hcfg).
    reflexivity.
Qed.

(** X8. With the resolver of [pathReader.ts] over a file system, the
    output of [process] is the prompt with each span replaced by what
    [readPathFromWorkspace] returns for its path, or left as it is when that
    fails; the notifications are, in order, those of the failing spans, each
    with the path and the message of the resolver's error. *)
Theorem process_over_a_file_system
    (node : Node) (prompt : jsstring)
    (context : CommandContext WorkspaceContext)
    (cfg : Config WorkspaceContext) :
  config context = Some cfg ->
  let ws := getWorkspaceContext cfg in
  let spans := extractInjections prompt in
  let r := process (readPathIn node) prompt context tt in
  output r
  = render prompt 0
      (map (fun inj => (inj, replacementIn node ws prompt inj)) spans)
  /\ notifications (trace r) = notificationsIn node ws spans.
Proof.
  intros Hcfg ws spans r. unfold r.
  rewrite (process_spec (readPathIn node) prompt context tt Hcfg).
  fold ws. fold spans. rewrite resolveAll_readPathIn.
  cbn [fst output trace]. split.
  - rewrite replaced_readPathIn. reflexivity.
  - rewrite notifications_eventsOf. apply failureItems_readPathIn.
Qed.

Lemma process_over_a_file_system_witness :
  config (withConfig workspace) = Some {| getWorkspaceContext := workspace |}
  /\ notifications
       (trace (process (readPathIn node)
                 (lit "Read @{file.txt} and @{/test/cwd/gone.txt}")
                 (withConfig workspace) tt))
     = notificationsIn node workspace
         (extractInjections
            (lit "Read @{file.txt} and @{/test/cwd/gone.txt}")).
Proof.
  split; [reflexivity|].
  apply (@process_over_a_file_system node
           (lit "Read @{file.txt} and @{/test/cwd/gone.txt}")
           (withConfig workspace) {| getWorkspaceContext := workspace |}
           eq_refl).
Defined.

End ProcessorExtra.

(** ** Properties of the resolver *)

Module ResolverExtra.

Import ResolverFacts ResolverMore Fixtures.

(** X9. The resolver fails with [OutOfBoundsError] exactly when the path is
    absolute and the workspace does not contain it, and the error then
    carries that path; no relative path and no failure of the file system
    gives this error. *)
Theorem out_of_bounds_exactly_for_absolute_path_outside
    (node : Node) (ws : WorkspaceContext) (p q : jsstring) :
  readPathFromWorkspace node p ws = Err (OutOfBoundsError q)
  <-> q = p /\ isAbsolute node p = true
      /\ isPathWithinWorkspace ws p = false.
Proof.
  unfold readPathFromWorkspace, findAbsolutePath.
  destruct (isAbsolute node p) eqn:Habs.
  - destruct (isPathWithinWorkspace ws p) eqn:Hin; cbn [negb].
    + split; [|intros (_ & _ & H); discriminate].
      destruct p as [|c p]; [discriminate|].
      intros H. apply readTarget_Err in H. destruct H as [cause H].
      discriminate.
    + split; [intros [= <-]; auto | intros (-> & _ & _); reflexivity].
  - split; [|intros (_ & H & _); discriminate].
    destruct (searchDirs node p (getDirectories ws)) as [[|c target]|];
      try discriminate.
    intros H. apply readTarget_Err in H. destruct H as [cause H].
    discriminate.
Qed.

(** X10. The containment test is made on absolute paths only: for a
    relative path the result is the same under any two workspaces with the
    same root directories, whatever their containment tests say. *)
Theorem relative_path_is_not_checked_for_containment
    (node : Node) (ws1 ws2 : WorkspaceContext) (p : jsstring) :
  isAbsolute node p = false ->
  getDirectories ws1 = getDirectories ws2 ->
  readPathFromWorkspace node p ws1 = readPathFromWorkspace node p ws2.
Proof.
  intros Hrel Hdirs. unfold readPathFromWorkspace, findAbsolutePath.
  rewrite Hrel, Hdirs. reflexivity.
Qed.

Lemma relative_path_is_not_checked_for_containment_witness :
  isAbsolute node (lit "file.txt") = false
  /\ getDirectories workspace = getDirectories (rejecting [CWD; OTHER_DIR])
  /\ readPathFromWorkspace node (lit "file.txt") workspace
     = readPathFromWorkspace node (lit "file.txt")
         (rejecting [CWD; OTHER_DIR]).
Proof.
  split; [reflexivity | split; [reflexivity|]].
  apply (@relative_path_is_not_checked_for_containment node workspace
           (rejecting [CWD; OTHER_DIR]) (lit "file.txt") eq_refl eq_refl).
Defined.

(** X11. When the target is a directory with at least one child, the
    resolver returns the header, which names the path as it was given and
    not the target it was resolved to, and then one [- entry] line per
    child, in the order [fs.readdir] gave them. *)
Theorem directory_with_children_lists_one_line_per_child
    (node : Node) (ws : WorkspaceContext) (p target : jsstring)
    (stats : Stats) (entries : list jsstring) :
  findAbsolutePath node p ws = Ok (Some target) ->
  target <> [] ->
  stat node target = Ok stats ->
  isDirectory stats = true ->
  readdir node target = Ok entries ->
  entries <> [] ->
  readPathFromWorkspace node p ws
  = Ok (lit "Directory listing for " ++ p ++ lit ":"
        ++ concat (map (fun entry => [LF] ++ lit "- " ++ entry) entries)).
Proof.
  intros Hfind Hne Hstat Hdir Hread Hentries. unfold readPathFromWorkspace.
  rewrite Hfind. destruct target as [|c target]; [congruence|].
  rewrite (@listing_of_nonempty_directory node p (c :: target) stats entries
             Hstat Hdir Hread Hentries).
  reflexivity.
Qed.

Lemma directory_with_children_lists_one_line_per_child_witness :
  findAbsolutePath node (lit "subdir") workspace
  = Ok (Some (lit "/test/cwd/subdir"))
  /\ lit "/test/cwd/subdir" <> []
  /\ stat node (lit "/test/cwd/subdir") = Ok {| isDirectory := true |}
  /\ isDirectory {| isDirectory := true |} = true
  /\ readdir node (lit "/test/cwd/subdir")
     = Ok [lit "file1.txt"; lit "file2.txt"]
  /\ [lit "file1.txt"; lit "file2.txt"] <> []
  /\ readPathFromWorkspace node (lit "subdir") workspace
     = Ok (lit "Directory listing for " ++ lit "subdir" ++ lit ":"
           ++ concat (map (fun entry => [LF] ++ lit "- " ++ entry)
                        [lit "file1.txt"; lit "file2.txt"])).
Proof.
  assert (Hne : lit "/test/cwd/subdir" <> []) by discriminate.
  assert (Hentries : [lit "file1.txt"; lit "file2.txt"] <> [])
    by discriminate.
  repeat (split; [first [reflexivity | exact Hne | exact Hentries]|]).
  apply (@directory_with_children_lists_one_line_per_child
           node workspace (lit "subdir") (lit "/test/cwd/subdir")
           {| isDirectory := true |} [lit "file1.txt"; lit "file2.txt"]
           eq_refl Hne eq_refl eq_refl eq_refl Hentries).
Defined.

(** X12. Whatever the resolver returns was read from a permitted target:
    the path itself when it is absolute and inside the workspace, or, for a
    relative path, the candidate of a configured root that passed the
    existence check.  Nothing else is ever read. *)
Theorem successful_read_comes_from_a_permitted_target
    (node : Node) (ws : WorkspaceContext) (p content : jsstring) :
  readPathFromWorkspace node p ws = Ok content ->
  exists target,
    permittedTarget node ws p target
    /\ target <> []
    /\ readTarget node p target = Ok content.
Proof.
  unfold readPathFromWorkspace, findAbsolutePath, permittedTarget.
  destruct (isAbsolute node p) eqn:Habs.
  - destruct (isPathWithinWorkspace ws p) eqn:Hin; cbn [negb];
      [|discriminate].
    destruct p as [|c p]; [discriminate|].
    intros H. exists (c :: p). repeat split; [|discriminate | exact H].
    left. auto.
  - destruct (searchDirs node p (getDirectories ws)) as [target|] eqn:Hs;
      [|discriminate].
    destruct target as [|c target]; [discriminate|].
    intros H. exists (c :: target).
    repeat split; [|discriminate | exact H].
    right. split; [reflexivity|].
    apply searchDirs_Some_access. exact Hs.
Qed.

Lemma successful_read_comes_from_a_permitted_target_witness :
  readPathFromWorkspace node (lit "only.txt") workspace
  = Ok (lit "only in other")
  /\ exists target,
       permittedTarget node workspace (lit "only.txt") target
       /\ target <> []
       /\ readTarget node (lit "only.txt") target = Ok (lit "only in other").
Proof.
  split; [reflexivity|].
  apply (@successful_read_comes_from_a_permitted_target node workspace
           (lit "only.txt") (lit "only in other") eq_refl).
Defined.

(** X13. Every failure of the resolver is of one of three kinds: the two
    it raises itself, which carry the path as it was given, or a failure of
    [fs.stat], [fs.readdir] or [fs.readFile] on a permitted target, whose
    cause is passed on as the message, unchanged. *)
Theorem failure_is_raised_or_passed_on
    (node : Node) (ws : WorkspaceContext) (p : jsstring) (e : Error) :
  readPathFromWorkspace node p ws = Err e ->
  e = OutOfBoundsError p
  \/ e = NotFoundError p
  \/ exists target cause,
       e = IOFailure cause
       /\ message e = cause
       /\ permittedTarget node ws p target
       /\ (stat node target = Err cause
           \/ readdir node target = Err cause
           \/ readFile node target = Err cause).
Proof.
  assert (Htarget : forall target,
    readTarget node p target = Err e ->
    exists cause,
      e = IOFailure cause /\ message e = cause
      /\ (stat node target = Err cause
          \/ readdir node target = Err cause
          \/ readFile node target = Err cause)).
  { intros target. unfold readTarget.
    destruct (stat node target) as [stats|cause] eqn:Hstat.
    - destruct (isDirectory stats).
      + destruct (readdir node target) as [entries|cause]; [discriminate|].
        intros [= <-]. exists cause. auto.
      + destruct (readFile node target) as [content|cause]; [discriminate|].
        intros [= <-]. exists cause. auto.
    - intros [= <-]. exists cause. auto. }
  unfold readPathFromWorkspace, findAbsolutePath, permittedTarget.
  destruct (isAbsolute node p) eqn:Habs.
  - destruct (isPathWithinWorkspace ws p) eqn:Hin; cbn [negb].
    + destruct p as [|c p]; [intros [= <-]; auto|].
      intros H. destruct (Htarget _ H) as (cause & He & Hm & Hc).
      right. right. exists (c :: p), cause. repeat split; auto.
    + intros [= <-]. auto.
  - destruct (searchDirs node p (getDirectories ws)) as [target|] eqn:Hs;
      [|intros [= <-]; auto].
    destruct target as [|c target]; [intros [= <-]; auto|].
    intros H. destruct (Htarget _ H) as (cause & He & Hm & Hc).
    right. right. exists (c :: target), cause. repeat split; auto.
    right. split; [reflexivity|]. apply searchDirs_Some_access. exact Hs.
Qed.

Lemma failure_is_raised_or_passed_on_witness :
  readPathFromWorkspace node (lit "/test/cwd/gone.txt") workspace
  = Err (IOFailure (enoent (lit "stat") (lit "/test/cwd/gone.txt")))
  /\ (IOFailure (enoent (lit "stat") (lit "/test/cwd/gone.txt"))
      = OutOfBoundsError (lit "/test/cwd/gone.txt")
      \/ IOFailure (enoent (lit "stat") (lit "/test/cwd/gone.txt"))
         = NotFoundError (lit "/test/cwd/gone.txt")
      \/ exists target cause,
           IOFailure (enoent (lit "stat") (lit "/test/cwd/gone.txt"))
           = IOFailure cause
           /\ message (IOFailure (enoent (lit "stat")
                                    (lit "/test/cwd/gone.txt"))) = cause
           /\ permittedTarget node workspace (lit "/test/cwd/gone.txt") target
           /\ (stat node target = Err cause
               \/ readdir node target = Err cause
               \/ readFile node target = Err cause)).
Proof.
  split; [reflexivity|].
  apply (@failure_is_raised_or_passed_on node workspace
           (lit "/test/cwd/gone.txt")
           (IOFailure (enoent (lit "stat") (lit "/test/cwd/gone.txt")))
           eq_refl).
Defined.

End ResolverExtra.
